(** * eino: chain builder (compose/chain.go) and ReAct agent (flow/agent/react)

    A shallow embedding of the chain builder sugar over the graph builder and
    of the ReAct agent helpers, with the properties the specification states
    about them.  Go maps are [gmap]s / [gset]s, slices are lists, the
    [(value, error)] return convention is a sum, and methods on pointer
    receivers are state-passing functions. *)

From stdpp Require Import gmap strings list fin_maps pretty.
From Stdlib Require Import ZArith Lia Ascii.

Open Scope string_scope.
Open Scope Z_scope.

(** ** Go runtime values *)

(** [error]: [errors.New] / [fmt.Errorf] without [%w] produce a plain message;
    [fmt.Errorf] with [%w] wraps an inner error behind a message prefix. *)
Inductive error : Type :=
| Errorf (msg : string)
| Wrapf (msg : string) (inner : error).

(** The Go convention [(v, err)]: [inl v] is [(v, nil)], [inr e] is [(zero, e)]. *)
Definition result (A : Type) : Type := (A + error)%type.

(** [reflect.Type], as far as the code compares it. *)
Inductive reflectType : Type :=
| TString
| TNamed (name : string).

#[global] Instance reflectType_eq_dec : EqDecision reflectType.
Proof. solve_decision. Defined.

Definition typeName (ty : reflectType) : string :=
  match ty with
  | TString => "string"
  | TNamed n => n
  end.

(** One item a stream delivers on [Recv]: a chunk, or a chunk-level failure.
    Running off the end of the list is [io.EOF]. *)
Inductive recv (A : Type) : Type :=
| Chunk (a : A)
| RecvErr (e : error).
Arguments Chunk {A} a.
Arguments RecvErr {A} e.

(** ** schema: messages and typed stream readers *)
Module schema.

(** Modelled from the spec: the schema package is not under src.  A message
    carries the fields the agent reads (content, tool calls, the id of the
    tool call it answers); a stream is a closable sequence of chunks whose
    [Recv] yields the next chunk, the end-of-stream signal, or a chunk-level
    failure. *)

Record FunctionCall : Type := mkFunctionCall {
  Name : string;
  Arguments_ : string
}.

Record ToolCall : Type := mkToolCall {
  ID : string;
  Function : FunctionCall
}.

Record Message : Type := mkMessage {
  Role : string;
  Content : string;
  ToolCalls : list ToolCall;
  ToolCallID : string
}.

(** [schema.StreamReader[T]]: the items still to be received and whether
    [Close] has been called on the reader. *)
Record StreamReader (A : Type) : Type := mkStreamReader {
  pending : list (recv A);
  closed : bool
}.
Arguments mkStreamReader {A} pending closed.
Arguments pending {A} s.
Arguments closed {A} s.

(** What [Recv] hands back. *)
Inductive received (A : Type) : Type :=
| Got (a : A)
| EOF
| Failed (e : error).
Arguments Got {A} a.
Arguments EOF {A}.
Arguments Failed {A} e.

Definition Recv {A} (sr : StreamReader A) : received A * StreamReader A :=
  match pending sr with
  | [] => (EOF, sr)
  | Chunk a :: rest => (Got a, mkStreamReader rest (closed sr))
  | RecvErr e :: rest => (Failed e, mkStreamReader rest (closed sr))
  end.

Definition Close {A} (sr : StreamReader A) : StreamReader A :=
  mkStreamReader (pending sr) true.

Definition StreamReaderFromArray {A} (arr : list A) : StreamReader A :=
  mkStreamReader (Chunk <$> arr) false.

End schema.

(** Go's [any], for the dynamic values the chain's branch conditions see. *)
Inductive any : Type :=
| AnyNil
| AnyString (s : string)
| AnyInt (z : Z)
| AnyBool (b : bool)
| AnyMessage (m : schema.Message)
| AnyMessages (ms : list schema.Message).

(** [%T] of a dynamic value. *)
Definition dynTypeName (v : any) : string :=
  match v with
  | AnyNil => "<nil>"
  | AnyString _ => "string"
  | AnyInt _ => "int"
  | AnyBool _ => "bool"
  | AnyMessage _ => "*schema.Message"
  | AnyMessages _ => "[]*schema.Message"
  end.

(** [%v] of a [[]string]. *)
Fixpoint joinWords (l : list string) : string :=
  match l with
  | [] => ""
  | [x] => x
  | x :: rest => x +:+ " " +:+ joinWords rest
  end.

Definition fmtStrings (l : list string) : string := "[" +:+ joinWords l +:+ "]".

(** ** compose: the graph builder the chain drives, and the chain itself *)
Module compose.

(** *** Type-erased stream readers (the [streamReader] interface) *)

(** Modelled from the spec: the [streamReader] interface is not under src.
    A [streamReaderPacker[T]] is the packer for [T = string], or the packer
    of some other element type, named by [ty]. *)
Inductive streamReader : Type :=
| packString (sr : schema.StreamReader string)
| packOther (ty : string) (sr : schema.StreamReader any).

Definition getChunkType (isr : streamReader) : reflectType :=
  match isr with
  | packString _ => TString
  | packOther ty _ => TNamed ty
  end.

(** [unpackStreamReader[string]]: succeeds exactly on the string packer. *)
Definition unpackStreamReader_string (isr : streamReader)
  : option (schema.StreamReader string) :=
  match isr with
  | packString sr => Some sr
  | packOther _ _ => None
  end.

Definition packStreamReader (sr : schema.StreamReader string) : streamReader :=
  packString sr.

Fixpoint concatChunks (items : list (recv string)) (acc : string) : result string :=
  match items with
  | [] => inl acc
  | Chunk s :: rest => concatChunks rest (acc +:+ s)
  | RecvErr e :: _ => inr e
  end.

(** Modelled from the spec: [concatStreamReader] is not under src.  String
    chunks join by append; concatenating an empty stream into a value is a
    conversion error; a chunk-level failure ends the stream with that
    error. *)
Definition concatStreamReader (sr : schema.StreamReader string) : result string :=
  match schema.pending sr with
  | [] => inr (Errorf "stream reader is empty, concat fail")
  | items => concatChunks items ""
  end.

(** *** Nodes, runnables, branches *)

(** Modelled from the spec: [graphNode], [composableRunnable], [GraphBranch]
    and the compile options are declared outside src.  A [*graphNode], as far
    as the chain looks at it: what [getNodeName] returns, the user-set
    [nodeInfo.key], and the declared boundary types. *)
Record graphNode : Type := mkGraphNode {
  getNodeName : string;
  nodeInfo_key : string;
  gn_inputType : reflectType;
  gn_outputType : reflectType
}.

Record composableRunnable : Type := mkComposableRunnable {
  cr_i : any → result any;
  cr_t : streamReader → result streamReader;
  cr_inputType : reflectType;
  cr_inputStreamFilter : option string;
  cr_outputType : reflectType;
  cr_optionType : reflectType;
  cr_isPassthrough : bool;
  cr_meta : string;
  cr_nodeInfo : string
}.

Record GraphBranch : Type := mkGraphBranch {
  condition : composableRunnable;
  endNodes : gmap string bool
}.

Record graphCompileOptions : Type := mkGraphCompileOptions {
  maxRunSteps : Z;
  nodeTriggerMode : string;
  graphName : string;
  opt_component : string
}.

(** Modelled from the spec: the functional options ([GraphCompileOption])
    are not under src; each sets one field of the configuration consumed at
    compile time. *)
Definition GraphCompileOption : Type := graphCompileOptions → graphCompileOptions.

(** Modelled from the spec: the constants below are declared outside src.
    START and END are the virtual entry and exit nodes, the two trigger
    modes are distinct non-empty names, and the chain's component name is
    the prefix the comment of [nextNodeKey] shows ("Chain[1]_ChatModel"). *)
Definition START : string := "start".
Definition END : string := "end".
Definition AnyPredecessor : string := "any_predecessor".
Definition AllPredecessor : string := "all_predecessor".
Definition ComponentOfChain : string := "Chain".

Definition WithMaxRunSteps (maxSteps : Z) : GraphCompileOption :=
  λ o, mkGraphCompileOptions maxSteps (nodeTriggerMode o) (graphName o) (opt_component o).
Definition WithNodeTriggerMode (mode : string) : GraphCompileOption :=
  λ o, mkGraphCompileOptions (maxRunSteps o) mode (graphName o) (opt_component o).
Definition WithGraphName (name : string) : GraphCompileOption :=
  λ o, mkGraphCompileOptions (maxRunSteps o) (nodeTriggerMode o) name (opt_component o).
Definition withComponent (cmp : string) : GraphCompileOption :=
  λ o, mkGraphCompileOptions (maxRunSteps o) (nodeTriggerMode o) (graphName o) cmp.

Definition newGraphCompileOptions (opts : list GraphCompileOption) : graphCompileOptions :=
  foldl (λ o f, f o) (mkGraphCompileOptions 0 "" "" "") opts.

(** *** The graph builder (graph.go, not under src) *)

(** Modelled from the spec: the rules of the graph builder that the
    specification leaves to the type system and to the compiler's validation
    pass: which output type
    may feed which input type, and the reachability / termination /
    trigger-mode validation of a frozen structure. *)
Class GraphRules : Type := {
  assignable : reflectType → reflectType → bool;
  validate : gmap string graphNode → list (string * string) →
             list (string * GraphBranch) → graphCompileOptions → option error
}.

Record graph : Type := mkGraph {
  g_inputType : reflectType;
  g_outputType : reflectType;
  nodes : gmap string graphNode;
  edges : list (string * string);
  branches : list (string * GraphBranch);
  buildError : option error;
  compiled : bool;
  compileChecker : option (graphCompileOptions → option error)
}.

Definition set_nodes (ns : gmap string graphNode) (g : graph) : graph :=
  mkGraph (g_inputType g) (g_outputType g) ns (edges g) (branches g)
          (buildError g) (compiled g) (compileChecker g).
Definition set_edges (es : list (string * string)) (g : graph) : graph :=
  mkGraph (g_inputType g) (g_outputType g) (nodes g) es (branches g)
          (buildError g) (compiled g) (compileChecker g).
Definition set_branches (bs : list (string * GraphBranch)) (g : graph) : graph :=
  mkGraph (g_inputType g) (g_outputType g) (nodes g) (edges g) bs
          (buildError g) (compiled g) (compileChecker g).
Definition set_buildError (e : option error) (g : graph) : graph :=
  mkGraph (g_inputType g) (g_outputType g) (nodes g) (edges g) (branches g)
          e (compiled g) (compileChecker g).
Definition set_compiled (b : bool) (g : graph) : graph :=
  mkGraph (g_inputType g) (g_outputType g) (nodes g) (edges g) (branches g)
          (buildError g) b (compileChecker g).
Definition set_compileChecker (ck : option (graphCompileOptions → option error))
           (g : graph) : graph :=
  mkGraph (g_inputType g) (g_outputType g) (nodes g) (edges g) (branches g)
          (buildError g) (compiled g) ck.

Definition NewGraph (I O : reflectType) : graph :=
  mkGraph I O ∅ [] [] None false None.

(** What a successful compile hands back: the frozen plan with the trigger
    mode and the step bound the compiler assigned. *)
Record composedPlan : Type := mkPlan {
  plan_nodes : gmap string graphNode;
  plan_edges : list (string * string);
  plan_branches : list (string * GraphBranch);
  plan_triggerMode : string;
  plan_maxSteps : Z
}.

Section Builder.
Context `{GraphRules}.

(** A failed mutator poisons the builder. *)
Definition graph_fail (e : error) (g : graph) : graph * option error :=
  (set_buildError (Some e) g, Some e).

Definition ErrGraphCompiled : error :=
  Errorf "graph has been compiled, cannot be modified".

Definition outTypeOf (g : graph) (k : string) : option reflectType :=
  if decide (k = START) then Some (g_inputType g)
  else gn_outputType <$> nodes g !! k.

Definition inTypeOf (g : graph) (k : string) : option reflectType :=
  if decide (k = END) then Some (g_outputType g)
  else gn_inputType <$> nodes g !! k.

(** Modelled from the spec: [graph.addNode] is not under src.  A poisoned
    builder keeps reporting its build error, a frozen builder rejects
    the mutation, a duplicate key (START and END are always present)
    poisons the builder, otherwise the node is registered under its
    key. *)
Definition graph_addNode (key : string) (node : graphNode) (g : graph)
  : graph * option error :=
  match buildError g with
  | Some e => (g, Some e)
  | None =>
    if compiled g then (g, Some ErrGraphCompiled)
    else if decide (key = START ∨ key = END) then
      graph_fail (Errorf ("node '" +:+ key +:+ "' is reserved")) g
    else match nodes g !! key with
         | Some _ => graph_fail (Errorf ("node '" +:+ key +:+ "' already present")) g
         | None => (set_nodes (<[key := node]> (nodes g)) g, None)
         end
  end.

(** Modelled from the spec: [AddEdge] is not under src.  Both endpoints
    must exist and the output type of the source must be assignable to
    the input type of the target; a failure poisons the builder. *)
Definition graph_AddEdge (startNode endNode : string) (g : graph)
  : graph * option error :=
  match buildError g with
  | Some e => (g, Some e)
  | None =>
    if compiled g then (g, Some ErrGraphCompiled)
    else match outTypeOf g startNode, inTypeOf g endNode with
         | Some o, Some i =>
           if assignable o i
           then (set_edges (edges g ++ [(startNode, endNode)]) g, None)
           else graph_fail (Errorf ("edge[" +:+ startNode +:+ "]-[" +:+ endNode
                                    +:+ "]: type mismatch")) g
         | None, _ =>
           graph_fail (Errorf ("edge start node '" +:+ startNode
                               +:+ "' needs to be added to graph first")) g
         | _, None =>
           graph_fail (Errorf ("edge end node '" +:+ endNode
                               +:+ "' needs to be added to graph first")) g
         end
  end.

Definition knownTarget (g : graph) (k : string) : bool :=
  bool_decide (is_Some (inTypeOf g k)).

(** Modelled from the spec: [AddBranch] is not under src.  The
    predecessor and every declared candidate must exist and the
    candidate set must have at least two members; a failure poisons the
    builder. *)
Definition graph_AddBranch (startNode : string) (branch : GraphBranch) (g : graph)
  : graph * option error :=
  match buildError g with
  | Some e => (g, Some e)
  | None =>
    if compiled g then (g, Some ErrGraphCompiled)
    else match outTypeOf g startNode with
         | None =>
           graph_fail (Errorf ("branch start node '" +:+ startNode
                               +:+ "' needs to be added to graph first")) g
         | Some _ =>
           if bool_decide (size (endNodes branch) < 2)%nat then
             graph_fail (Errorf "branch needs at least two end nodes") g
           else if forallb (knownTarget g) (map_to_list (endNodes branch)).*1 then
             (set_branches (branches g ++ [(startNode, branch)]) g, None)
           else graph_fail (Errorf "branch end node needs to be added to graph first") g
         end
  end.

(** Modelled from the spec: a builder is frozen once it has compiled. *)
Definition isFrozen (g : graph) : bool := compiled g.

(** Modelled from the spec: [wrapCompileChecker] is not under src; the
    wrapped checker runs the earlier checker, then the new one, and the
    first error wins. *)
Definition wrapCompileChecker
           (old : option (graphCompileOptions → option error))
           (new : graphCompileOptions → option error)
  : option (graphCompileOptions → option error) :=
  Some (λ o, match old with
             | Some f => match f o with
                         | Some e => Some e
                         | None => new o
                         end
             | None => new o
             end).

Definition runCompileChecker (g : graph) (o : graphCompileOptions) : option error :=
  match compileChecker g with
  | Some f => f o
  | None => None
  end.

(** Modelled from the spec: the compiler's default step bound is the
    node count plus a constant headroom; the headroom 10 is the one the
    comment of [AgentConfig.MaxStep] gives ("node num + 10"). *)
Definition defaultMaxRunSteps (g : graph) : Z := Z.of_nat (size (nodes g)) + 10.

(** Modelled from the spec: the compiler assigns the trigger mode; with
    none requested the Pregel-style runtime fires a node once any one
    predecessor is done. *)
Definition assignTriggerMode (o : graphCompileOptions) : string :=
  if decide (nodeTriggerMode o = "") then AnyPredecessor else nodeTriggerMode o.

(** Modelled from the spec: [graph.compile] is not under src.  A poisoned
    builder surfaces its build error; the compile checker and the
    validation pass can reject; otherwise the builder is frozen and the
    plan carries the assigned trigger mode and step bound (the configured
    one, or the default when none is configured). *)
Definition graph_compile (o : graphCompileOptions) (g : graph)
  : graph * result composedPlan :=
  match buildError g with
  | Some e => (g, inr e)
  | None =>
    match runCompileChecker g o with
    | Some e => (g, inr e)
    | None =>
      match validate (nodes g) (edges g) (branches g) o with
      | Some e => (g, inr e)
      | None =>
        (set_compiled true g,
         inl (mkPlan (nodes g) (edges g) (branches g) (assignTriggerMode o)
                     (if bool_decide (0 < maxRunSteps o) then maxRunSteps o
                      else defaultMaxRunSteps g)))
      end
    end
  end.

(** [Graph.Compile]: the exported entry point builds the options from the
    functional options and compiles. *)
Definition graph_Compile (opts : list GraphCompileOption) (g : graph)
  : graph * result composedPlan :=
  graph_compile (newGraphCompileOptions opts) g.

(** *** The chain (chain.go) *)

Record ChainBranch : Type := mkChainBranch {
  key2BranchNode : gmap string graphNode;
  cb_condition : composableRunnable;
  cb_err : option error
}.

Record Parallel : Type := mkParallel {
  p_nodes : list graphNode;
  p_err : option error
}.

Record Chain : Type := mkChain {
  err : option error;
  gg : graph;
  namePrefix : string;
  nodeIdx : Z;
  preNodeKeys : list string
}.

Definition set_err (e : option error) (c : Chain) : Chain :=
  mkChain e (gg c) (namePrefix c) (nodeIdx c) (preNodeKeys c).
Definition set_gg (g : graph) (c : Chain) : Chain :=
  mkChain (err c) g (namePrefix c) (nodeIdx c) (preNodeKeys c).
Definition set_namePrefix (p : string) (c : Chain) : Chain :=
  mkChain (err c) (gg c) p (nodeIdx c) (preNodeKeys c).
Definition set_nodeIdx (i : Z) (c : Chain) : Chain :=
  mkChain (err c) (gg c) (namePrefix c) i (preNodeKeys c).
Definition set_preNodeKeys (ks : list string) (c : Chain) : Chain :=
  mkChain (err c) (gg c) (namePrefix c) (nodeIdx c) ks.

(** Go's [int] is 64 bits wide here; [nodeIdx++] wraps around. *)
Definition wrap64 (z : Z) : Z := (z + 2 ^ 63) mod 2 ^ 64 - 2 ^ 63.

(** [NewChain]: a chain over a fresh graph.  (The node checker and the runtime
    graph key it installs on the graph play no part below.) *)
Definition NewChain (I O : reflectType) : Chain :=
  mkChain None (NewGraph I O) "" 0 [].

(** [reportError]: save the first error in the chain. *)
Definition reportError (e : option error) (c : Chain) : Chain :=
  match err c with
  | None => set_err e c
  | Some _ => c
  end.

(** [nextNodeKey]: [fmt.Sprintf("%s[%d]_%s", c.namePrefix, c.nodeIdx, name)]. *)
Definition nextNodeKey (name : string) (c : Chain) : string * Chain :=
  let c1 := if decide (namePrefix c = "") then set_namePrefix ComponentOfChain c else c in
  let fullKey := namePrefix c1 +:+ "[" +:+ pretty (nodeIdx c1) +:+ "]_" +:+ name in
  (fullKey, set_nodeIdx (wrap64 (nodeIdx c1 + 1)) c1).

(** The loop of [addEnds] over [preNodeKeys]. *)
Fixpoint addEndEdges (keys : list string) (g : graph) : graph * option error :=
  match keys with
  | [] => (g, None)
  | nodeKey :: rest =>
    match graph_AddEdge nodeKey END g with
    | (g', Some e) => (g', Some e)
    | (g', None) => addEndEdges rest g'
    end
  end.

(** [addEnds]: add the END edges of the chain. *)
Definition addEnds (c : Chain) : Chain * option error :=
  match preNodeKeys c with
  | [] => (c, Some (Errorf ("pre node keys not set, number of nodes in chain= "
                            +:+ pretty (size (nodes (gg c))))))
  | keys => let '(g', e) := addEndEdges keys (gg c) in (set_gg g' c, e)
  end.

(** The checker both [Compile] and [compile] install. *)
Definition chainCompileChecker (options : graphCompileOptions) : option error :=
  if bool_decide (String.length (nodeTriggerMode options) ≠ 0%nat
                  ∧ nodeTriggerMode options ≠ AnyPredecessor)
  then Some (Errorf "only support AnyPredecessor in chain")
  else None.

(** [compile] (implements AnyGraph).  The closure it installs ignores its own
    parameter and tests the [option] of the enclosing call. *)
Definition compile (option : graphCompileOptions) (c : Chain)
  : Chain * result composedPlan :=
  match err c with
  | Some e => (c, inr e)
  | None =>
    let '(c1, e) := if isFrozen (gg c) then (c, None) else addEnds c in
    match e with
    | Some e => (c1, inr e)
    | None =>
      let g1 := set_compileChecker
                  (wrapCompileChecker (compileChecker (gg c1))
                                      (λ _options, chainCompileChecker option))
                  (gg c1) in
      let '(g2, r) := graph_compile option g1 in
      (set_gg g2 c1, r)
    end
  end.

(** [Compile] to a Runnable. *)
Definition Compile (opts : list GraphCompileOption) (c : Chain)
  : Chain * result composedPlan :=
  match err c with
  | Some e => (c, inr e)
  | None =>
    let opts := (opts ++ [withComponent ComponentOfChain])%list in
    let '(c1, e) := if isFrozen (gg c) then (c, None) else addEnds c in
    match e with
    | Some e => (c1, inr e)
    | None =>
      let g1 := set_compileChecker
                  (wrapCompileChecker (compileChecker (gg c1)) chainCompileChecker)
                  (gg c1) in
      let '(g2, r) := graph_Compile opts g1 in
      (set_gg g2 c1, r)
    end
  end.

(** The edge loop of [addNode]: the first failing [AddEdge] is reported and
    ends the call before [preNodeKeys] is replaced. *)
Fixpoint addPreEdges (pres : list string) (nodeKey : string) (g : graph)
  : graph * option error :=
  match pres with
  | [] => (g, None)
  | preNodeKey :: rest =>
    match graph_AddEdge preNodeKey nodeKey g with
    | (g', Some e) => (g', Some e)
    | (g', None) => addPreEdges rest nodeKey g'
    end
  end.

(** [addNode]: add a node to the chain ([None] is a nil [*graphNode]). *)
Definition addNode (node : option graphNode) (c : Chain) : Chain :=
  match err c with
  | Some _ => c
  | None =>
    match node with
    | None => reportError (Some (Errorf "chain add node invalid, node is nil")) c
    | Some node =>
      let '(nodeKey, c1) := nextNodeKey (getNodeName node) c in
      let nodeKey := if decide (nodeInfo_key node ≠ "") then nodeInfo_key node else nodeKey in
      let '(g2, e) := graph_addNode nodeKey node (gg c1) in
      let c2 := reportError e (set_gg g2 c1) in
      let c3 := match preNodeKeys c2 with
                | [] => set_preNodeKeys (preNodeKeys c2 ++ [START]) c2
                | _ => c2
                end in
      match addPreEdges (preNodeKeys c3) nodeKey (gg c3) with
      | (g4, Some e) => reportError (Some e) (set_gg g4 c3)
      | (g4, None) => set_preNodeKeys [nodeKey] (set_gg g4 c3)
      end
    end
  end.

(** The [Append<Component>] methods convert their component to a graph node
    ([to...Node], not under src) and hand it to [addNode]. *)
Definition AppendChatModel := addNode.
Definition AppendChatTemplate := addNode.
Definition AppendToolsNode := addNode.
Definition AppendDocumentTransformer := addNode.
Definition AppendLambda := addNode.
Definition AppendEmbedding := addNode.
Definition AppendRetriever := addNode.
Definition AppendLoaderSplitter := addNode.
Definition AppendLoader := addNode.
Definition AppendIndexer := addNode.
Definition AppendGraph := addNode.
Definition AppendPassthrough := addNode.

(** The predecessor a branch or a parallel hangs on: START for a fresh chain,
    the single previous node, or nothing when there are several. *)
Definition startNodeOf (c : Chain) : option string :=
  match preNodeKeys c with
  | [] => Some START
  | [k] => Some k
  | _ => None
  end.

(** [fmt.Sprintf("%s[%s]_%s", pName, key, node.getNodeName())]. *)
Definition branchNodeKey (pName key : string) (node : graphNode) : string :=
  pName +:+ "[" +:+ key +:+ "]_" +:+ getNodeName node.

(** The loop of [AppendBranch] over [b.key2BranchNode]: every candidate is
    added to the graph under its node key and recorded in [key2NodeKey]; the
    first failing [addNode] ends the loop. *)
Fixpoint addBranchNodes (pName : string) (kns : list (string * graphNode))
         (g : graph) (key2NodeKey : gmap string string)
  : graph * (gmap string string + string * error) :=
  match kns with
  | [] => (g, inl key2NodeKey)
  | (key, node) :: rest =>
    let nodeKey := branchNodeKey pName key node in
    match graph_addNode nodeKey node g with
    | (g', Some e) => (g', inr (nodeKey, e))
    | (g', None) => addBranchNodes pName rest g' (<[key := nodeKey]> key2NodeKey)
    end
  end.

(** The closure [invokeCon] of [AppendBranch]. *)
Definition invokeCon (b : ChainBranch) (key2NodeKey : gmap string string)
           (input : any) : result any :=
  match cr_i (cb_condition b) input with
  | inr e => inr e
  | inl endKey =>
    match endKey with
    | AnyString endStr =>
      match key2NodeKey !! endStr with
      | None => inr (Errorf ("chain branch result not in added keys: " +:+ endStr))
      | Some nodeKey => inl (AnyString nodeKey)
      end
    | _ => inr (Errorf ("chain branch result not string, got: " +:+ dynTypeName endKey))
    end
  end.

(** The closure [transformCon] of [AppendBranch]. *)
Definition transformCon (b : ChainBranch) (key2NodeKey : gmap string string)
           (sr : streamReader) : result streamReader :=
  match cr_t (cb_condition b) sr with
  | inr e => inr e
  | inl iEndStream =>
    if decide (getChunkType iEndStream ≠ TString) then
      inr (Errorf ("chain branch result not string, got: "
                   +:+ typeName (getChunkType iEndStream)))
    else
      match unpackStreamReader_string iEndStream with
      | None => inr (Errorf "unpack stream reader not ok")
      | Some endStream =>
        match concatStreamReader endStream with
        | inr e => inr e
        | inl endStr =>
          match key2NodeKey !! endStr with
          | None => inr (Errorf ("chain branch result not in added keys: " +:+ endStr))
          | Some nodeKey =>
            inl (packStreamReader (schema.StreamReaderFromArray [nodeKey]))
          end
        end
      end
  end.

(** Whether [Close] has been called on the reader behind the interface. *)
Definition streamClosed (isr : streamReader) : bool :=
  match isr with
  | packString sr => schema.closed sr
  | packOther _ sr => schema.closed sr
  end.

(** [transformCon] again, with the stream the wrapped condition handed back
    as the closure leaves it on the two exits that return before
    [concatStreamReader] gets it: no statement of the closure closes it. *)
Definition transformConTraced (b : ChainBranch) (key2NodeKey : gmap string string)
           (sr : streamReader) : result streamReader * option streamReader :=
  match cr_t (cb_condition b) sr with
  | inr e => (inr e, None)
  | inl iEndStream =>
    if decide (getChunkType iEndStream ≠ TString) then
      (inr (Errorf ("chain branch result not string, got: "
                    +:+ typeName (getChunkType iEndStream))), Some iEndStream)
    else
      match unpackStreamReader_string iEndStream with
      | None => (inr (Errorf "unpack stream reader not ok"), Some iEndStream)
      | Some endStream =>
        match concatStreamReader endStream with
        | inr e => (inr e, None)
        | inl endStr =>
          match key2NodeKey !! endStr with
          | None => (inr (Errorf ("chain branch result not in added keys: " +:+ endStr)), None)
          | Some nodeKey =>
            (inl (packStreamReader (schema.StreamReaderFromArray [nodeKey])), None)
          end
        end
      end
  end.

(** [gmap.Values] of the Go helper package. *)
Definition gmap_Values (m : gmap string string) : list string := (map_to_list m).*2.

(** [gslice.ToMap(keys, func(k) (k, true))]. *)
Definition toEndNodes (keys : list string) : gmap string bool :=
  list_to_map ((λ k, (k, true)) <$> keys).

(** The [GraphBranch] that [AppendBranch] hands to the graph. *)
Definition gBranch (b : ChainBranch) (key2NodeKey : gmap string string) : GraphBranch :=
  let cond := cb_condition b in
  mkGraphBranch
    (mkComposableRunnable (invokeCon b key2NodeKey) (transformCon b key2NodeKey)
                          (cr_inputType cond) (cr_inputStreamFilter cond)
                          (cr_outputType cond) (cr_optionType cond)
                          (cr_isPassthrough cond) (cr_meta cond) (cr_nodeInfo cond))
    (toEndNodes (gmap_Values key2NodeKey)).

(** [AppendBranch]: add a conditional branch to the chain ([None] is a nil
    [*ChainBranch]).  Go ranges over the map in an unspecified order; the
    model ranges in the order of [map_to_list]. *)
Definition AppendBranch (b : option ChainBranch) (c : Chain) : Chain :=
  match b with
  | None => reportError (Some (Errorf "append branch invalid, branch is nil")) c
  | Some b =>
    match cb_err b with
    | Some e => reportError (Some (Wrapf "append branch error: " e)) c
    | None =>
      if bool_decide (size (key2BranchNode b) = 0%nat) then
        reportError (Some (Errorf "append branch invalid, nodeList is empty")) c
      else if bool_decide (size (key2BranchNode b) = 1%nat) then
        reportError (Some (Errorf "append branch invalid, nodeList length = 1")) c
      else
        match startNodeOf c with
        | None =>
          reportError (Some (Errorf ("append branch invalid, multiple previous nodes: "
                                     +:+ fmtStrings (preNodeKeys c) +:+ " "))) c
        | Some startNode =>
          let '(pName, c1) := nextNodeKey "Branch" c in
          match addBranchNodes pName (map_to_list (key2BranchNode b)) (gg c1) ∅ with
          | (g2, inr (nodeKey, e)) =>
            reportError (Some (Wrapf ("add branch node[" +:+ nodeKey
                                      +:+ "] to chain failed: ") e))
                        (set_gg g2 c1)
          | (g2, inl key2NodeKey) =>
            match graph_AddBranch startNode (gBranch b key2NodeKey) g2 with
            | (g3, Some e) =>
              reportError (Some (Wrapf "chain append branch failed: " e)) (set_gg g3 c1)
            | (g3, None) =>
              set_preNodeKeys (gmap_Values key2NodeKey) (set_gg g3 c1)
            end
          end
        end
    end
  end.

(** The loop of [AppendParallel] over [p.nodes], index [i] upwards. *)
Fixpoint addParallelNodes (pName startNode : string) (i : Z) (ns : list graphNode)
         (g : graph) (nodeKeys : list string)
  : graph * (list string + error) :=
  match ns with
  | [] => (g, inl nodeKeys)
  | node :: rest =>
    let nodeKey := pName +:+ "[" +:+ pretty i +:+ "]_" +:+ getNodeName node in
    match graph_addNode nodeKey node g with
    | (g1, Some e) =>
      (g1, inr (Wrapf ("add parallel node[" +:+ nodeKey +:+ "] to chain failed: ") e))
    | (g1, None) =>
      match graph_AddEdge startNode nodeKey g1 with
      | (g2, Some e) =>
        (g2, inr (Wrapf ("add parallel edge[" +:+ startNode +:+ "]-[" +:+ nodeKey
                         +:+ "] to chain failed: ") e))
      | (g2, None) =>
        addParallelNodes pName startNode (i + 1) rest g2 (nodeKeys ++ [nodeKey])
      end
    end
  end.

(** [AppendParallel]: add a parallel structure to the chain ([None] is a nil
    [*Parallel]). *)
Definition AppendParallel (p : option Parallel) (c : Chain) : Chain :=
  match p with
  | None => reportError (Some (Errorf "append parallel invalid, parallel is nil")) c
  | Some p =>
    match p_err p with
    | Some e => reportError (Some (Wrapf "append parallel invalid, parallel error: " e)) c
    | None =>
      if bool_decide (length (p_nodes p) ≤ 1)%nat then
        reportError (Some (Errorf ("append parallel invalid, not enough nodes, count = "
                                   +:+ pretty (length (p_nodes p))))) c
      else
        match startNodeOf c with
        | None =>
          reportError (Some (Errorf ("append parallel invalid, multiple previous nodes: "
                                     +:+ fmtStrings (preNodeKeys c) +:+ " "))) c
        | Some startNode =>
          let '(pName, c1) := nextNodeKey "Parallel" c in
          match addParallelNodes pName startNode 0 (p_nodes p) (gg c1) [] with
          | (g2, inr e) => reportError (Some e) (set_gg g2 c1)
          | (g2, inl nodeKeys) => set_preNodeKeys nodeKeys (set_gg g2 c1)
          end
        end
    end
  end.

(** *** Branch evaluation and stream branches (the scheduler, not under src) *)

(** Modelled from the spec: the scheduler's branch evaluation is not under
    src.  The condition returns one successor key; a key outside the branch's
    declared candidates fails the run, otherwise only that one edge is live:
    the result lists the successors the run activates. *)
Definition evalBranch (br : GraphBranch) (input : any) : result (list string) :=
  match cr_i (condition br) input with
  | inr e => inr e
  | inl (AnyString k) =>
    match endNodes br !! k with
    | Some true => inl [k]
    | _ => inr (Errorf "branch target not in declared set")
    end
  | inl v => inr (Errorf ("branch result not a node key, got: " +:+ dynTypeName v))
  end.

Fixpoint unpackItems {A} (proj : any → option A) (items : list (recv any))
  : option (list (recv A)) :=
  match items with
  | [] => Some []
  | Chunk v :: rest =>
    match proj v, unpackItems proj rest with
    | Some a, Some l => Some (Chunk a :: l)
    | _, _ => None
    end
  | RecvErr e :: rest =>
    match unpackItems proj rest with
    | Some l => Some (RecvErr e :: l)
    | None => None
    end
  end.

(** Modelled from the spec: [NewStreamGraphBranch] is not under src.  It
    wraps a condition over a typed stream as a branch: the condition consumes
    the predecessor's output as a stream (a single value is a one-chunk
    stream) and its key is handed on. *)
Definition NewStreamGraphBranch {A} (ty : string) (proj : any → option A)
           (cond : schema.StreamReader A → result string)
           (ends : gmap string bool) : GraphBranch :=
  mkGraphBranch
    (mkComposableRunnable
       (λ v, match proj v with
             | Some a =>
               match cond (schema.StreamReaderFromArray [a]) with
               | inl k => inl (AnyString k)
               | inr e => inr e
               end
             | None => inr (Errorf "branch input type mismatch")
             end)
       (λ isr, match isr with
               | packOther ty' sr =>
                 match (if decide (ty' = ty)
                        then unpackItems proj (schema.pending sr) else None) with
                 | Some items =>
                   match cond (schema.mkStreamReader items (schema.closed sr)) with
                   | inl k => inl (packStreamReader (schema.StreamReaderFromArray [k]))
                   | inr e => inr e
                   end
                 | None => inr (Errorf "branch input type mismatch")
                 end
               | packString _ => inr (Errorf "branch input type mismatch")
               end)
       (TNamed ty) None TString (TNamed "") false "" "")
    ends.

End Builder.

End compose.

(** ** react: the ReAct agent (flow/agent/react) *)
Module react.
Import schema.

Record state : Type := mkState {
  Messages : list Message;
  ReturnDirectlyToolCallID : string
}.

Definition nodeKeyTools : string := "tools".
Definition nodeKeyModel : string := "chat".
Definition GraphName : string := "ReActAgent".
Definition ModelNodeName : string := "ChatModel".
Definition ToolsNodeName : string := "Tools".

(** A stream tool-call checker: its verdict, its error, and the reader as it
    leaves it. *)
Definition toolCallChecker : Type :=
  StreamReader Message → (bool * option error) * StreamReader Message.

Record AgentConfig : Type := mkAgentConfig {
  MessageModifier : option (list Message → list Message);
  MaxStep : Z;
  ToolReturnDirectly : gset string;
  StreamToolCallChecker : option toolCallChecker
}.

(** [NewPersonaModifier]. *)
Definition NewPersonaModifier (persona : string) (input : list Message) : list Message :=
  mkMessage "system" persona [] "" :: input.

(** The [for] loop of [firstChunkStreamToolCallChecker], by recursion on the
    items the reader still holds: each round is one [Recv]. *)
Fixpoint firstChunkLoop (items : list (recv Message))
  : (bool * option error) * list (recv Message) :=
  match items with
  | [] => ((false, None), [])
  | RecvErr e :: rest => ((false, Some e), rest)
  | Chunk msg :: rest =>
    if bool_decide (0 < length (ToolCalls msg))%nat then ((true, None), rest)
    else if bool_decide (String.length (Content msg) = 0%nat) then firstChunkLoop rest
    else ((false, None), rest)
  end.

(** The body of [firstChunkStreamToolCallChecker]: the verdict and the reader
    as the [return] that ends the loop leaves it. *)
Definition firstChunkBody (sr : StreamReader Message)
  : (bool * option error) * StreamReader Message :=
  let '(r, rest) := firstChunkLoop (pending sr) in
  (r, mkStreamReader rest (closed sr)).

(** [firstChunkStreamToolCallChecker]: the body, then the deferred
    [sr.Close()], which runs at whichever [return] ends the body. *)
Definition firstChunkStreamToolCallChecker : toolCallChecker :=
  λ sr, let '(r, sr') := firstChunkBody sr in (r, Close sr').

(** [getReturnDirectlyToolCallID]. *)
Fixpoint firstReturnDirectly (calls : list ToolCall) (toolReturnDirectly : gset string)
  : string :=
  match calls with
  | [] => ""
  | toolCall :: rest =>
    if bool_decide (Name (Function toolCall) ∈ toolReturnDirectly) then ID toolCall
    else firstReturnDirectly rest toolReturnDirectly
  end.

Definition getReturnDirectlyToolCallID (input : Message) (toolReturnDirectly : gset string)
  : string :=
  if bool_decide (size toolReturnDirectly = 0%nat) then ""
  else firstReturnDirectly (ToolCalls input) toolReturnDirectly.

(** The claim's wording of [getReturnDirectlyToolCallID]: the ID of the first
    tool call whose function name is in the set, the empty string when there
    is none. *)
Definition firstMatchingToolCallID (input : Message) (toolReturnDirectly : gset string)
  : string :=
  match List.find (λ tc, bool_decide (Name (Function tc) ∈ toolReturnDirectly))
                  (ToolCalls input) with
  | Some tc => ID tc
  | None => ""
  end.

(** Modelled from the spec: [compose.ProcessState] is not under src.  The
    run state is the per-run value the state factory created; a run without
    one cannot hand it to the handler. *)
Definition ProcessState {A} (st : option state) (handler : state → A) : result A :=
  match st with
  | Some s => inl (handler s)
  | None => inr (Errorf "get state from context fail")
  end.

(** [modelPreHandle] and [toolsNodePreHandle] of [NewAgent]. *)
Definition modelPreHandle (config : AgentConfig) (input : list Message) (st : state)
  : list Message * state :=
  let st' := mkState (Messages st ++ input) (ReturnDirectlyToolCallID st) in
  match MessageModifier config with
  | None => (Messages st', st')
  | Some f => (f (Messages st'), st')
  end.

Definition toolsNodePreHandle (config : AgentConfig) (input : Message) (st : state)
  : Message * state :=
  (input, mkState (Messages st ++ [input])
                  (getReturnDirectlyToolCallID input (ToolReturnDirectly config))).

(** [modelPostBranchCondition] of [NewAgent]. *)
Definition modelPostBranchCondition (checker : toolCallChecker) (sr : StreamReader Message)
  : result string * StreamReader Message :=
  match checker sr with
  | ((_, Some e), sr') => (inr e, sr')
  | ((true, None), sr') => (inl nodeKeyTools, sr')
  | ((false, None), sr') => (inl compose.END, sr')
  end.

Definition nodeKeyDirectReturn : string := "direct_return".

(** The branch condition of [buildReturnDirectly]: it closes the stream it
    is given, then reads the run state. *)
Definition returnDirectlyCondition (st : option state) (msgsStream : StreamReader (list Message))
  : result string * StreamReader (list Message) :=
  let msgsStream := Close msgsStream in
  match ProcessState st (λ s, if bool_decide (0 < String.length (ReturnDirectlyToolCallID s))%nat
                              then nodeKeyDirectReturn else nodeKeyModel) with
  | inr e => (inr e, msgsStream)
  | inl endNode => (inl endNode, msgsStream)
  end.

Definition projMessage (v : any) : option Message :=
  match v with AnyMessage m => Some m | _ => None end.
Definition projMessages (v : any) : option (list Message) :=
  match v with AnyMessages ms => Some ms | _ => None end.

Definition tyMessage : string := "*schema.Message".
Definition tyMessages : string := "[]*schema.Message".

(** [genToolInfos]: the [Info] of every tool, in order; the first failing
    [Info] ends the loop with its error.  A tool is given by what its [Info]
    call returns. *)
Fixpoint genToolInfosLoop {A} (tools : list (result A)) (toolInfos : list A)
  : result (list A) :=
  match tools with
  | [] => inl toolInfos
  | inr e :: _ => inr e
  | inl tl :: rest => genToolInfosLoop rest (toolInfos ++ [tl])
  end.

Definition genToolInfos {A} (tools : list (result A)) : result (list A) :=
  genToolInfosLoop tools [].

(** Modelled from the spec: [schema.ErrNoValue] is declared outside src. *)
Definition ErrNoValue : error := Errorf "no value".

(** The loop of [directReturn] over the tool results ([None] is a nil
    [*schema.Message]): the first non-nil message that answers the
    return-directly tool call. *)
Fixpoint findToolResult (msgs : list (option Message)) (id : string) : option Message :=
  match msgs with
  | [] => None
  | Some m :: rest =>
    if bool_decide (ToolCallID m = id) then Some m else findToolResult rest id
  | None :: rest => findToolResult rest id
  end.

(** The conversion [directReturn] applies to every chunk of tool results. *)
Definition directReturnConvert (st : option state) (msgs : list (option Message))
  : result Message :=
  match ProcessState st (λ s, findToolResult msgs (ReturnDirectlyToolCallID s)) with
  | inr e => inr e
  | inl None => inr ErrNoValue
  | inl (Some msg) => inl msg
  end.

(** [schema.StreamReaderWithConvert(sr, convert)] is declared outside src:
    the reader it returns is kept as its two arguments (what that reader does
    with a chunk whose conversion fails is not modelled). *)
Record convertedReader (A B : Type) : Type := mkConverted {
  cv_source : StreamReader A;
  cv_convert : A → result B
}.
Arguments mkConverted {A B} cv_source cv_convert.
Arguments cv_source {A B} c.
Arguments cv_convert {A B} c.

(** [directReturn] of [buildReturnDirectly]: the stream of tool results
    wrapped with the conversion, and a nil error. *)
Definition directReturn (st : option state) (msgs : StreamReader (list (option Message)))
  : result (convertedReader (list (option Message)) Message) :=
  inl (mkConverted msgs (directReturnConvert st)).

Record Agent : Type := mkAgent {
  runnable : compose.composedPlan;
  graph : compose.graph
}.

Section Agent.
Context `{compose.GraphRules}.

(** Sequencing of the builder calls of [NewAgent]: [if err = ...; err != nil
    { return nil, err }]. *)
Definition andThen (r : compose.graph * option error)
           (k : compose.graph → compose.graph * option error)
  : compose.graph * option error :=
  match r with
  | (g, Some e) => (g, Some e)
  | (g, None) => k g
  end.

(** [buildReturnDirectly]; [st] is the run state the branch condition will
    find at run time. *)
Definition buildReturnDirectly (st : option state) (g : compose.graph)
  : compose.graph * option error :=
  andThen (compose.graph_addNode nodeKeyDirectReturn
             (compose.mkGraphNode "Lambda" "" (TNamed tyMessages) (TNamed tyMessage)) g)
  (λ g, andThen (compose.graph_AddBranch nodeKeyTools
                   (compose.NewStreamGraphBranch tyMessages projMessages
                      (λ sr, fst (returnDirectlyCondition st sr))
                      {[ nodeKeyModel := true; nodeKeyDirectReturn := true ]}) g)
  (λ g, compose.graph_AddEdge nodeKeyDirectReturn compose.END g)).

(** [NewAgent].  [collab] is the first error, if any, of the collaborators
    called before the graph is built ([genToolInfos], [ChatModelWithTools],
    [NewToolNode]); [st] is the run state of the run the conditions will
    serve. *)
Definition NewAgent (collab : option error) (st : option state) (config : AgentConfig)
  : result Agent :=
  let toolCallChecker := match StreamToolCallChecker config with
                         | Some f => f
                         | None => firstChunkStreamToolCallChecker
                         end in
  match collab with
  | Some e => inr e
  | None =>
    let g := compose.NewGraph (TNamed tyMessages) (TNamed tyMessage) in
    let built :=
      andThen (compose.graph_addNode nodeKeyModel
                 (compose.mkGraphNode ModelNodeName "" (TNamed tyMessages) (TNamed tyMessage)) g)
      (λ g, andThen (compose.graph_AddEdge compose.START nodeKeyModel g)
      (λ g, andThen (compose.graph_addNode nodeKeyTools
                       (compose.mkGraphNode ToolsNodeName "" (TNamed tyMessage)
                                            (TNamed tyMessages)) g)
      (λ g, andThen (compose.graph_AddBranch nodeKeyModel
                       (compose.NewStreamGraphBranch tyMessage projMessage
                          (λ sr, fst (modelPostBranchCondition toolCallChecker sr))
                          {[ nodeKeyTools := true; compose.END := true ]}) g)
      (λ g, if bool_decide (0 < size (ToolReturnDirectly config))%nat
            then buildReturnDirectly st g
            else compose.graph_AddEdge nodeKeyTools nodeKeyModel g)))) in
    match built with
    | (_, Some e) => inr e
    | (g, None) =>
      let compileOpts := [compose.WithMaxRunSteps (MaxStep config);
                          compose.WithNodeTriggerMode compose.AnyPredecessor;
                          compose.WithGraphName GraphName] in
      match compose.graph_Compile compileOpts g with
      | (_, inr e) => inr e
      | (g', inl r) => inl (mkAgent r g')
      end
    end
  end.

End Agent.

End react.

(** ** host: configuration of the host multi-agent (flow/agent/multiagent/host) *)
Module host.

(** Interface and function values ([model.ChatModel], [compose.Invoke],
    [compose.Stream]) are nil or some implementation, named here. *)
Record AgentMeta : Type := mkAgentMeta {
  Name : string;
  IntendedUse : string
}.

Record Host : Type := mkHost {
  ChatModel : option string;
  SystemPrompt : string
}.

Record Specialist : Type := mkSpecialist {
  meta : AgentMeta;
  sp_ChatModel : option string;
  sp_SystemPrompt : string;
  Invokable : option string;
  Streamable : option string
}.

(** [Specialists] is a [[]*Specialist]: an element can be a nil pointer. *)
Record MultiAgentConfig : Type := mkMultiAgentConfig {
  conf_Host : Host;
  Specialists : list (option Specialist);
  conf_Name : string
}.

(** How a call of [validate] ends: it returns its error (or nil), or it
    panics on a nil pointer. *)
Inductive outcome : Type :=
| Returns (e : option error)
| Panics.

(** [AgentMeta.validate]. *)
Definition AgentMeta_validate (am : AgentMeta) : option error :=
  if bool_decide (String.length (Name am) = 0%nat) then
    Some (Errorf "agent meta name is empty")
  else if bool_decide (String.length (IntendedUse am) = 0%nat) then
    Some (Errorf "agent meta intended use is empty")
  else None.

(** The loop of [MultiAgentConfig.validate] over the specialists; reading
    [s.ChatModel] of a nil [s] panics. *)
Fixpoint validateSpecialists (ss : list (option Specialist)) : outcome :=
  match ss with
  | [] => Returns None
  | None :: _ => Panics
  | Some s :: rest =>
    if bool_decide (sp_ChatModel s = None ∧ Invokable s = None ∧ Streamable s = None) then
      Returns (Some (Errorf ("specialist " +:+ Name (meta s)
                             +:+ " has no chat model or Invokable or Streamable")))
    else match AgentMeta_validate (meta s) with
         | Some e => Returns (Some e)
         | None => validateSpecialists rest
         end
  end.

(** [MultiAgentConfig.validate] ([None] is a nil [*MultiAgentConfig]): how
    the call ends, and the configuration as the call leaves it.
    [defaultHostPrompt] is a constant of the package declared outside src. *)
Definition validate (defaultHostPrompt : string) (conf : option MultiAgentConfig)
  : option MultiAgentConfig * outcome :=
  match conf with
  | None => (None, Returns (Some (Errorf "host multi agent config is nil")))
  | Some conf =>
    if bool_decide (ChatModel (conf_Host conf) = None) then
      (Some conf, Returns (Some (Errorf "host multi agent host ChatModel is nil")))
    else if bool_decide (length (Specialists conf) = 0%nat) then
      (Some conf, Returns (Some (Errorf "host multi agent specialists are empty")))
    else
      let conf1 :=
        if bool_decide (String.length (SystemPrompt (conf_Host conf)) = 0%nat)
        then mkMultiAgentConfig (mkHost (ChatModel (conf_Host conf)) defaultHostPrompt)
                                (Specialists conf) (conf_Name conf)
        else conf in
      match validateSpecialists (Specialists conf1) with
      | Returns None =>
        (Some (if bool_decide (String.length (conf_Name conf1) = 0%nat)
               then mkMultiAgentConfig (conf_Host conf1) (Specialists conf1)
                                       "host multi agent"
               else conf1),
         Returns None)
      | stopped => (Some conf1, stopped)
      end
  end.

End host.

(** ** generic: instances by reflection (internal/generic) *)
Module generic.








End generic.

Import compose schema.

(** ** Sample inputs *)

(** Graph rules for the examples: an output feeds an input of the same type,
    and the validation pass accepts every frozen structure. *)
Definition strictRules : GraphRules :=
  {| assignable := λ o i, bool_decide (o = i); validate := λ _ _ _ _, None |}.

Definition lambdaNode (name : string) : graphNode := mkGraphNode name "" TString TString.

(** A condition that hands its input on as the key. *)
Definition echo : composableRunnable :=
  mkComposableRunnable (λ v, inl v) (λ sr, inl sr) TString None TString TString false "" "".

Definition twoCandidates : ChainBranch :=
  mkChainBranch {[ "a" := lambdaNode "A"; "b" := lambdaNode "B" ]} echo None.

Definition oneCandidate : ChainBranch :=
  mkChainBranch {[ "a" := lambdaNode "A" ]} echo None.

Definition sampleChain : Chain :=
  @AppendLambda strictRules (Some (lambdaNode "L")) (NewChain TString TString).

Definition plainConfig : react.AgentConfig := react.mkAgentConfig None 0 ∅ None.

Definition call (id name : string) : ToolCall := mkToolCall id (mkFunctionCall name "{}").

Definition threeCalls : Message :=
  mkMessage "assistant" "" [call "1" "search"; call "2" "finish"; call "3" "answer"] "".

(** Chunks the default checker skips: no tool calls, empty content. *)
Definition emptyChunks (skipped : list (string * string)) : list (recv Message) :=
  (λ p, Chunk (mkMessage p.1 "" [] p.2)) <$> skipped.

(** ** Sequences of builder calls *)

(** One call on a chain: an [Append<Component>] (all of them are [addNode]),
    [AppendBranch] or [AppendParallel]. *)
Inductive ChainCall : Type :=
| CallAddNode (node : option graphNode)
| CallAppendBranch (b : option ChainBranch)
| CallAppendParallel (p : option Parallel).

Section ChainCalls.
Context `{GraphRules}.

Definition runCall (k : ChainCall) (c : Chain) : Chain :=
  match k with
  | CallAddNode node => addNode node c
  | CallAppendBranch b => AppendBranch b c
  | CallAppendParallel p => AppendParallel p c
  end.

Definition runCalls (ks : list ChainCall) (c : Chain) : Chain :=
  foldl (λ c k, runCall k c) c ks.

End ChainCalls.

(** The node key [addNode] uses for a node: the user-set key, or the
    generated one. *)
Definition chainNodeKey (node : graphNode) (c : Chain) : string :=
  if decide (nodeInfo_key node ≠ "") then nodeInfo_key node
  else (nextNodeKey (getNodeName node) c).1.

(** The node keys [AppendParallel] generates for the nodes from index [i]. *)
Fixpoint parallelNodeKeys (pName : string) (i : Z) (ns : list graphNode) : list string :=
  match ns with
  | [] => []
  | node :: rest =>
    (pName +:+ "[" +:+ pretty i +:+ "]_" +:+ getNodeName node)
      :: parallelNodeKeys pName (i + 1) rest
  end.

(** ** Sequences of state handler calls *)

(** One state handler call of a run of the agent graph: the model node's
    [modelPreHandle] or the tools node's [toolsNodePreHandle], on the state of
    the run. *)
Inductive PreHandleCall : Type :=
| ModelCall (input : list Message)
| ToolsCall (input : Message).

Definition callMessages (k : PreHandleCall) : list Message :=
  match k with
  | ModelCall input => input
  | ToolsCall input => [input]
  end.

Definition runPreHandle (config : react.AgentConfig) (k : PreHandleCall) (st : react.state)
  : react.state :=
  match k with
  | ModelCall input => (react.modelPreHandle config input st).2
  | ToolsCall input => (react.toolsNodePreHandle config input st).2
  end.

Definition runPreHandles (config : react.AgentConfig) (ks : list PreHandleCall)
           (st : react.state) : react.state :=
  foldl (λ st k, runPreHandle config k st) st ks.

(** ** Vocabulary of the properties *)

(** A tool message that answers the tool call [id]; a nil message answers
    none. *)
Definition answers (id : string) (o : option Message) : Prop :=
  match o with
  | Some m => ToolCallID m = id
  | None => False
  end.

(** A specialist that [MultiAgentConfig.validate] lets pass: not nil, some way
    to run it, a name and an intended use. *)
Definition specialistOk (o : option host.Specialist) : Prop :=
  match o with
  | None => False
  | Some s =>
    (host.sp_ChatModel s ≠ None ∨ host.Invokable s ≠ None ∨ host.Streamable s ≠ None) ∧
    host.Name (host.meta s) ≠ "" ∧ host.IntendedUse (host.meta s) ≠ ""
  end.

(** The string holds no closing bracket (the digits and the sign of [%d]
    do not). *)
Fixpoint noClosingBracket (s : string) : bool :=
  match s with
  | "" => true
  | String a r => negb (Ascii.eqb a "]"%char) && noClosingBracket r
  end.

(** The name prefix [nextNodeKey] uses: the chain's own, or "Chain" when it
    is not set yet. *)
Definition effectivePrefix (c : Chain) : string :=
  if decide (namePrefix c = "") then ComponentOfChain else namePrefix c.

(** ** More sample inputs *)

(** A tool-call checker that returns without closing the stream. *)
Definition neglectfulChecker : react.toolCallChecker := λ sr, ((false, None), sr).

(** A condition whose stream form hands back a stream of integers. *)
Definition intStreamCondition : composableRunnable :=
  mkComposableRunnable (λ v, inl v)
    (λ _, inl (packOther "int" (StreamReaderFromArray [AnyInt 3])))
    TString None TString TString false "" "".

Definition intStreamBranch : ChainBranch :=
  mkChainBranch {[ "a" := lambdaNode "A"; "b" := lambdaNode "B" ]} intStreamCondition None.

Definition oneNodeParallel : Parallel := mkParallel [lambdaNode "P"] None.

Definition twoNodeParallel : Parallel := mkParallel [lambdaNode "P"; lambdaNode "Q"] None.

(** A chain whose last call was [AppendBranch]: two nodes wait for a
    successor. *)
Definition branchedChain : Chain :=
  AppendBranch (Some twoCandidates) sampleChain.

(** A chain that remembers the failure of [AppendBranch(nil)]. *)
Definition poisonedChain : Chain :=
  AppendBranch None (NewChain TString TString).

(** * Properties *)

Lemma graph_addNode_ok key node g g' :
  graph_addNode key node g = (g', None) →
  nodes g !! key = None ∧ g' = set_nodes (<[key := node]> (nodes g)) g ∧
  buildError g = None ∧ compiled g = false.
Proof.
  unfold graph_addNode, graph_fail.
  destruct (buildError g) eqn:Hb; [by inversion 1|].
  destruct (compiled g) eqn:Hc; [by inversion 1|].
  case_decide; [by inversion 1|].
  destruct (nodes g !! key) eqn:Hn; [by inversion 1|].
  by inversion 1.
Qed.

Lemma addBranchNodes_ok pName kns : ∀ g acc g' k2n,
  addBranchNodes pName kns g acc = (g', inl k2n) →
  NoDup kns.*1 →
  nodes g ⊆ nodes g' ∧
  (∀ key node, (key, node) ∈ kns →
     k2n !! key = Some (branchNodeKey pName key node) ∧
     nodes g' !! branchNodeKey pName key node = Some node) ∧
  (∀ key, key ∉ kns.*1 → k2n !! key = acc !! key) ∧
  edges g' = edges g ∧ branches g' = branches g ∧ buildError g' = buildError g ∧
  compiled g' = compiled g ∧ compileChecker g' = compileChecker g ∧
  g_inputType g' = g_inputType g ∧ g_outputType g' = g_outputType g.
Proof.
  induction kns as [|[key node] rest IH]; intros g acc g' k2n Hrun Hnd; simpl in Hrun.
  - inversion Hrun; subst. split_and!; try done. intros ?? Hin. by apply elem_of_nil in Hin.
  - destruct (graph_addNode (branchNodeKey pName key node) node g) as [g1 [e|]] eqn:Hadd;
      [by inversion Hrun|].
    apply graph_addNode_ok in Hadd as (Hfresh & -> & Hb & Hc).
    apply NoDup_cons in Hnd as [Hnotin Hnd].
    apply IH in Hrun as (Hsub & Hin & Hout & He & Hbr & Hbe & Hcp & Hck & Hi & Ho); [|done].
    simpl in *. split_and!; try done.
    + etrans; [|exact Hsub]. by apply insert_subseteq.
    + intros k n [Heq|Hin']%elem_of_cons.
      * inversion Heq; subst. split.
        -- rewrite Hout; [by rewrite lookup_insert_eq|done].
        -- eapply lookup_weaken; [|exact Hsub]. by rewrite lookup_insert_eq.
      * by apply Hin.
    + intros k Hk. apply not_elem_of_cons in Hk as [Hne Hk].
      rewrite Hout; [|done]. by rewrite lookup_insert_ne.
Qed.

Lemma reportError_Some e c : ∃ e', err (reportError (Some e) c) = Some e'.
Proof. unfold reportError. destruct (err c) eqn:He; simpl; eauto. Qed.

Lemma reportError_first e c : err c = None → err (reportError e c) = e.
Proof. unfold reportError. by intros ->. Qed.

Lemma reportError_keeps e0 e c : err c = Some e0 → reportError e c = c.
Proof. unfold reportError. by intros ->. Qed.

Lemma reportError_gg e c : gg (reportError e c) = gg c.
Proof. unfold reportError. by destruct (err c). Qed.

Lemma reportError_preNodeKeys e c : preNodeKeys (reportError e c) = preNodeKeys c.
Proof. unfold reportError. by destruct (err c). Qed.

Lemma reportError_nodeIdx e c : nodeIdx (reportError e c) = nodeIdx c.
Proof. unfold reportError. by destruct (err c). Qed.

Lemma graph_AddBranch_ok s br g g' :
  graph_AddBranch s br g = (g', None) →
  g' = set_branches (branches g ++ [(s, br)]) g.
Proof.
  unfold graph_AddBranch, graph_fail.
  destruct (buildError g); [by inversion 1|].
  destruct (compiled g); [by inversion 1|].
  destruct (outTypeOf g s); [|by inversion 1].
  case_bool_decide; [by inversion 1|].
  destruct (forallb _ _); by inversion 1.
Qed.

Lemma toEndNodes_lookup l k :
  toEndNodes l !! k = if decide (k ∈ l) then Some true else None.
Proof.
  induction l as [|x l IH].
  - unfold toEndNodes; simpl. rewrite lookup_empty.
    destruct (decide (k ∈ [])) as [Hin|]; [by inversion Hin|done].
  - change (toEndNodes (x :: l)) with (<[x := true]> (toEndNodes l)).
    destruct (decide (x = k)) as [->|Hne].
    + rewrite lookup_insert_eq. rewrite decide_True; [done|by left].
    + rewrite lookup_insert_ne; [|done]. rewrite IH.
      destruct (decide (k ∈ l)) as [Hin|Hnin].
      * rewrite decide_True; [done|by right].
      * rewrite decide_False; [done|]. intros [?|?]%elem_of_cons; congruence.
Qed.

Lemma gmap_Values_elem (m : gmap string string) k v : m !! k = Some v → v ∈ gmap_Values m.
Proof.
  intros Hl. unfold gmap_Values. apply list_elem_of_fmap. exists (k, v). split; [done|].
  by apply elem_of_map_to_list.
Qed.

(** What a successful [AppendBranch] leaves behind. *)
Lemma AppendBranch_added (b : ChainBranch) (c : Chain) :
  err (AppendBranch (Some b) c) = None →
  ∃ startNode key2NodeKey,
    let pName := (nextNodeKey "Branch" c).1 in
    let c' := AppendBranch (Some b) c in
    startNodeOf c = Some startNode ∧
    (∀ key, key2NodeKey !! key = branchNodeKey pName key <$> key2BranchNode b !! key) ∧
    (∀ key node, key2BranchNode b !! key = Some node →
                 nodes (gg c') !! branchNodeKey pName key node = Some node) ∧
    branches (gg c') = (branches (gg c) ++ [(startNode, gBranch b key2NodeKey)])%list ∧
    preNodeKeys c' = gmap_Values key2NodeKey.
Proof.
  unfold AppendBranch.
  destruct (cb_err b) as [e|].
  { intros Hn. destruct (reportError_Some (Wrapf "append branch error: " e) c) as [? Hs]. congruence. }
  case_bool_decide.
  { intros Hn. edestruct reportError_Some as [? Hs]. rewrite Hs in Hn. done. }
  case_bool_decide.
  { intros Hn. edestruct reportError_Some as [? Hs]. rewrite Hs in Hn. done. }
  destruct (startNodeOf c) as [startNode|] eqn:Hstart.
  2:{ intros Hn. edestruct reportError_Some as [? Hs]. rewrite Hs in Hn. done. }
  destruct (nextNodeKey "Branch" c) as [pName c1] eqn:Hnext.
  assert (gg c1 = gg c) as Hgg.
  { unfold nextNodeKey in Hnext. inversion Hnext. by case_decide. }
  destruct (addBranchNodes pName (map_to_list (key2BranchNode b)) (gg c1) ∅)
    as [g2 [k2n|[nodeKey e]]] eqn:Hloop.
  2:{ intros Hn. edestruct reportError_Some as [? Hs]. rewrite Hs in Hn. done. }
  destruct (graph_AddBranch startNode (gBranch b k2n) g2) as [g3 [e|]] eqn:Hadd.
  { intros Hn. edestruct reportError_Some as [? Hs]. rewrite Hs in Hn. done. }
  intros _. exists startNode, k2n. simpl.
  apply graph_AddBranch_ok in Hadd as ->.
  apply addBranchNodes_ok in Hloop
    as (Hsub & Hin & Hout & He & Hbr & _); [|apply NoDup_fst_map_to_list].
  split_and!; try done.
  - intros key. destruct (key2BranchNode b !! key) as [node|] eqn:Hk; simpl.
    + apply elem_of_map_to_list in Hk. by apply Hin in Hk as [-> _].
    + rewrite Hout; [by rewrite lookup_empty|].
      intros [[k n] [Heq Hel]]%list_elem_of_fmap. simpl in Heq; subst.
      apply elem_of_map_to_list in Hel. congruence.
  - intros key node Hk. apply elem_of_map_to_list in Hk. by apply Hin in Hk as [_ ?].
  - by rewrite Hbr, Hgg.
Qed.

(** C1.  For a branch that [AppendBranch] has added to the chain: whenever
    the condition function returns a key of the branch, the condition the
    graph runs returns exactly the node key the chain registered for that
    key, the graph holds that candidate under it, the same holds for the
    streaming form, and the run activates that node and no other declared
    candidate. *)
Theorem C1_branch_successor_is_designated_candidate (b : ChainBranch) (c : Chain) :
  err (AppendBranch (Some b) c) = None →
  ∃ startNode br,
    last (branches (gg (AppendBranch (Some b) c))) = Some (startNode, br) ∧
    ∀ input key node,
      cr_i (cb_condition b) input = inl (AnyString key) →
      key2BranchNode b !! key = Some node →
      let nodeKey := branchNodeKey (nextNodeKey "Branch" c).1 key node in
      nodes (gg (AppendBranch (Some b) c)) !! nodeKey = Some node ∧
      cr_i (condition br) input = inl (AnyString nodeKey) ∧
      evalBranch br input = inl [nodeKey] ∧
      (∀ sr endStream,
         cr_t (cb_condition b) sr = inl (packString endStream) →
         concatStreamReader endStream = inl key →
         cr_t (condition br) sr
         = inl (packString (schema.StreamReaderFromArray [nodeKey]))) ∧
      (∀ other successors,
         endNodes br !! other = Some true → other ≠ nodeKey →
         evalBranch br input = inl successors → other ∉ successors).
Proof.
  intros Hok.
  destruct (AppendBranch_added b c Hok) as (startNode & k2n & _ & Hk2n & Hnodes & Hbr & _).
  exists startNode, (gBranch b k2n). split.
  { rewrite Hbr. apply last_snoc. }
  intros input key node Hcond Hkey nodeKey.
  assert (k2n !! key = Some nodeKey) as Hlk by (by rewrite Hk2n, Hkey).
  assert (evalBranch (gBranch b k2n) input = inl [nodeKey]) as Heval.
  { unfold evalBranch; simpl. unfold invokeCon. rewrite Hcond, Hlk.
    rewrite toEndNodes_lookup. rewrite decide_True; [done|].
    by eapply gmap_Values_elem. }
  split_and!.
  - by apply Hnodes.
  - simpl. unfold invokeCon. by rewrite Hcond, Hlk.
  - done.
  - intros sr endStream Ht Hcat. simpl. unfold transformCon. rewrite Ht. simpl.
    by rewrite Hcat, Hlk.
  - intros other successors _ Hne Hev. rewrite Heval in Hev. inversion Hev; subst.
    by intros ->%list_elem_of_singleton.
Qed.

Lemma C1_witness :
  err (AppendBranch (Some twoCandidates) (NewChain TString TString)) = None ∧
  ∃ startNode br,
    last (branches (gg (AppendBranch (Some twoCandidates) (NewChain TString TString))))
    = Some (startNode, br) ∧
    cr_i (condition br) (AnyString "a") = inl (AnyString "Chain[0]_Branch[a]_A") ∧
    evalBranch br (AnyString "a") = inl ["Chain[0]_Branch[a]_A"].
Proof.
  split; [reflexivity|].
  destruct (C1_branch_successor_is_designated_candidate
              twoCandidates (NewChain TString TString) eq_refl)
    as (startNode & br & Hlast & Hrun).
  exists startNode, br. split; [exact Hlast|].
  destruct (Hrun (AnyString "a") "a" (mkGraphNode "A" "" TString TString) eq_refl eq_refl)
    as (_ & Hi & Hev & _).
  split; [exact Hi|exact Hev].
Defined.

(** C2.  For a branch that [AppendBranch] has added to the chain: when the
    condition function's result is not a string, or is a string (for a
    stream, the concatenation of its chunks) that is not a key of the
    branch, the branch evaluation returns an error and the run fails; no
    successor is picked. *)
Theorem C2_branch_result_outside_candidates_fails (b : ChainBranch) (c : Chain) :
  err (AppendBranch (Some b) c) = None →
  ∃ startNode br,
    last (branches (gg (AppendBranch (Some b) c))) = Some (startNode, br) ∧
    (∀ input endKey,
       cr_i (cb_condition b) input = inl endKey →
       (∀ key, endKey = AnyString key → key2BranchNode b !! key = None) →
       (∃ e, cr_i (condition br) input = inr e) ∧ (∃ e, evalBranch br input = inr e)) ∧
    (∀ sr iEndStream,
       cr_t (cb_condition b) sr = inl iEndStream →
       (∀ endStream key, iEndStream = packString endStream →
                         concatStreamReader endStream = inl key →
                         key2BranchNode b !! key = None) →
       ∃ e, cr_t (condition br) sr = inr e).
Proof.
  intros Hok.
  destruct (AppendBranch_added b c Hok) as (startNode & k2n & _ & Hk2n & _ & Hbr & _).
  exists startNode, (gBranch b k2n). split.
  { rewrite Hbr. apply last_snoc. }
  split.
  - intros input endKey Hcond Hout.
    assert (∃ e, invokeCon b k2n input = inr e) as [e He].
    { unfold invokeCon. rewrite Hcond.
      destruct endKey; eauto.
      rewrite Hk2n, (Hout s eq_refl). simpl. eauto. }
    split; [by exists e|].
    unfold evalBranch. simpl. rewrite He. eauto.
  - intros sr iEndStream Ht Hout. simpl. unfold transformCon. rewrite Ht.
    destruct iEndStream as [endStream|ty sr']; simpl; [|eauto].
    destruct (concatStreamReader endStream) as [key|e] eqn:Hcat; [|eauto].
    rewrite Hk2n, (Hout endStream key eq_refl Hcat). simpl. eauto.
Qed.

Lemma C2_witness :
  err (AppendBranch (Some twoCandidates) (NewChain TString TString)) = None ∧
  ∃ startNode br,
    last (branches (gg (AppendBranch (Some twoCandidates) (NewChain TString TString))))
    = Some (startNode, br) ∧
    (∃ e, evalBranch br (AnyString "c") = inr e) ∧
    (∃ e, evalBranch br (AnyInt 3) = inr e) ∧
    (∃ e, cr_t (condition br)
               (packString (StreamReaderFromArray ["c"])) = inr e).
Proof.
  split; [reflexivity|].
  destruct (C2_branch_result_outside_candidates_fails
              twoCandidates (NewChain TString TString) eq_refl)
    as (startNode & br & Hlast & Hi & Ht).
  exists startNode, br. split; [exact Hlast|]. split_and!.
  - apply (Hi (AnyString "c") (AnyString "c") eq_refl).
    intros key Hk. inversion Hk; subst. reflexivity.
  - apply (Hi (AnyInt 3) (AnyInt 3) eq_refl). intros key Hk. discriminate Hk.
  - apply (Ht (packString (StreamReaderFromArray ["c"])) _ eq_refl).
    intros endStream key Hs Hc. inversion Hs; subst. vm_compute in Hc.
    inversion Hc; subst. reflexivity.
Defined.

Section ChainCompile.
Context `{GraphRules}.

Lemma Compile_poisoned opts c e : err c = Some e → Compile opts c = (c, inr e).
Proof. unfold Compile. by intros ->. Qed.

Lemma compile_poisoned o c e : err c = Some e → compile o c = (c, inr e).
Proof. unfold compile. by intros ->. Qed.

(** C3.  [AppendBranch] with a nil branch, or with a branch of zero or one
    candidates, leaves the chain in error (on an error-free chain: the
    error of the failed check), adds nothing to the graph, and [Compile] and
    [compile] report the remembered error. *)
Theorem C3_branch_with_fewer_than_two_candidates_rejected
        (b : option ChainBranch) (c : Chain) :
  match b with
  | None => True
  | Some b => (size (key2BranchNode b) < 2)%nat
  end →
  let c' := AppendBranch b c in
  (∃ e, err c' = Some e ∧
        (∀ opts, Compile opts c' = (c', inr e)) ∧ (∀ o, compile o c' = (c', inr e))) ∧
  (err c = None →
   err c' = Some
     match b with
     | None => Errorf "append branch invalid, branch is nil"
     | Some b =>
       match cb_err b with
       | Some e => Wrapf "append branch error: " e
       | None => if bool_decide (size (key2BranchNode b) = 0%nat)
                 then Errorf "append branch invalid, nodeList is empty"
                 else Errorf "append branch invalid, nodeList length = 1"
       end
     end) ∧
  gg c' = gg c ∧ preNodeKeys c' = preNodeKeys c ∧ nodeIdx c' = nodeIdx c.
Proof.
  intros Hsmall c'.
  assert (∃ e, c' = reportError (Some e) c ∧
               (err c = None → e =
     match b with
     | None => Errorf "append branch invalid, branch is nil"
     | Some b =>
       match cb_err b with
       | Some e => Wrapf "append branch error: " e
       | None => if bool_decide (size (key2BranchNode b) = 0%nat)
                 then Errorf "append branch invalid, nodeList is empty"
                 else Errorf "append branch invalid, nodeList length = 1"
       end
     end)) as (e & Hc' & He).
  { subst c'. unfold AppendBranch. destruct b as [b|]; [|eauto].
    destruct (cb_err b); [eauto|].
    case_bool_decide; [eauto|].
    case_bool_decide; [eauto|]. lia. }
  rewrite Hc'. split_and!.
  - destruct (reportError_Some e c) as [e' He'].
    exists e'. split_and!; [done|intros; by apply Compile_poisoned|intros; by apply compile_poisoned].
  - intros Hnone. rewrite reportError_first; [|done]. by rewrite (He Hnone).
  - apply reportError_gg.
  - apply reportError_preNodeKeys.
  - apply reportError_nodeIdx.
Qed.

Lemma newGraphCompileOptions_snoc opts f :
  newGraphCompileOptions (opts ++ [f]) = f (newGraphCompileOptions opts).
Proof. unfold newGraphCompileOptions. by rewrite foldl_snoc. Qed.

Lemma chainCompileChecker_rejects o :
  nodeTriggerMode o ≠ "" → nodeTriggerMode o ≠ AnyPredecessor →
  chainCompileChecker o = Some (Errorf "only support AnyPredecessor in chain").
Proof.
  intros Hne Hany. unfold chainCompileChecker. rewrite bool_decide_eq_true_2; [done|].
  split; [|done]. destruct (nodeTriggerMode o); [done|simpl; lia].
Qed.

Lemma chainCompileChecker_accepts o :
  chainCompileChecker o = None →
  nodeTriggerMode o = "" ∨ nodeTriggerMode o = AnyPredecessor.
Proof.
  unfold chainCompileChecker. case_bool_decide as Hd; [done|]. intros _.
  destruct (decide (nodeTriggerMode o = "")) as [|Hne]; [by left|].
  destruct (decide (nodeTriggerMode o = AnyPredecessor)) as [|Hany]; [by right|].
  exfalso. apply Hd. split; [|done].
  destruct (nodeTriggerMode o); [done|simpl; lia].
Qed.

Lemma wrapped_checker_rejects old new o e g :
  new o = Some e →
  ∃ e', runCompileChecker (set_compileChecker (wrapCompileChecker old new) g) o = Some e'.
Proof.
  intros Hn. unfold runCompileChecker, wrapCompileChecker; simpl.
  destruct old as [f|]; [destruct (f o)|]; eauto.
Qed.

Lemma wrapped_checker_accepts old new o g :
  runCompileChecker (set_compileChecker (wrapCompileChecker old new) g) o = None →
  new o = None.
Proof.
  unfold runCompileChecker, wrapCompileChecker; simpl.
  destruct old as [f|]; [destruct (f o)|]; done.
Qed.

Lemma graph_compile_rejected o g e :
  runCompileChecker g o = Some e → ∃ e', graph_compile o g = (g, inr e').
Proof.
  intros Hr. unfold graph_compile. destruct (buildError g); [eauto|]. rewrite Hr. eauto.
Qed.

Lemma graph_compile_ok o g g' plan :
  graph_compile o g = (g', inl plan) →
  buildError g = None ∧ runCompileChecker g o = None ∧
  validate (nodes g) (edges g) (branches g) o = None ∧
  g' = set_compiled true g ∧
  plan = mkPlan (nodes g) (edges g) (branches g) (assignTriggerMode o)
                (if bool_decide (0 < maxRunSteps o)%Z then maxRunSteps o
                 else defaultMaxRunSteps g).
Proof.
  unfold graph_compile.
  destruct (buildError g); [by inversion 1|].
  destruct (runCompileChecker g o); [by inversion 1|].
  destruct (validate _ _ _ o); [by inversion 1|].
  by inversion 1.
Qed.

(** C4.  [Compile] and [compile] of any chain return an error when a node
    trigger mode other than AnyPredecessor is requested explicitly, and a
    plan they do hand back runs in AnyPredecessor mode. *)
Theorem C4_chain_rejects_other_trigger_modes (c : Chain) :
  (∀ opts,
     let mode := nodeTriggerMode (newGraphCompileOptions opts) in
     mode ≠ "" → mode ≠ AnyPredecessor → ∃ e, (Compile opts c).2 = inr e) ∧
  (∀ option,
     nodeTriggerMode option ≠ "" → nodeTriggerMode option ≠ AnyPredecessor →
     ∃ e, (compile option c).2 = inr e) ∧
  (∀ opts plan, (Compile opts c).2 = inl plan →
                plan_triggerMode plan = AnyPredecessor) ∧
  (∀ option plan, (compile option c).2 = inl plan →
                  plan_triggerMode plan = AnyPredecessor).
Proof.
  assert (∀ o, assignTriggerMode o = AnyPredecessor ↔
               (nodeTriggerMode o = "" ∨ nodeTriggerMode o = AnyPredecessor)) as Hassign.
  { intros o. unfold assignTriggerMode. case_decide as Hd; split; eauto.
    - intros [?|?]; done. }
  assert (∀ opts, nodeTriggerMode (newGraphCompileOptions (opts ++ [withComponent ComponentOfChain]))
                  = nodeTriggerMode (newGraphCompileOptions opts)) as Hmode.
  { intros opts. by rewrite newGraphCompileOptions_snoc. }
  split_and!.
  - intros opts mode Hne Hany. unfold Compile.
    destruct (err c); [simpl; eauto|].
    destruct (if isFrozen (gg c) then (c, None) else addEnds c) as [c1 [e|]]; [simpl; eauto|].
    unfold graph_Compile.
    edestruct (wrapped_checker_rejects (compileChecker (gg c1)) chainCompileChecker) as [e' He'].
    { apply chainCompileChecker_rejects; rewrite Hmode; [exact Hne|exact Hany]. }
    apply graph_compile_rejected in He' as [e'' He'']. rewrite He''. simpl. eauto.
  - intros o Hne Hany. unfold compile.
    destruct (err c); [simpl; eauto|].
    destruct (if isFrozen (gg c) then (c, None) else addEnds c) as [c1 [e|]]; [simpl; eauto|].
    edestruct (wrapped_checker_rejects (compileChecker (gg c1)) (λ _, chainCompileChecker o))
      as [e' He'].
    { by apply chainCompileChecker_rejects. }
    apply graph_compile_rejected in He' as [e'' He'']. rewrite He''. simpl. eauto.
  - intros opts plan. unfold Compile.
    destruct (err c); [done|].
    destruct (if isFrozen (gg c) then (c, None) else addEnds c) as [c1 [e|]]; [done|].
    unfold graph_Compile.
    destruct (graph_compile _ _) as [g2 r] eqn:Hc. simpl. intros ->.
    apply graph_compile_ok in Hc as (_ & Hck & _ & _ & ->). simpl.
    apply wrapped_checker_accepts in Hck. apply chainCompileChecker_accepts in Hck.
    by apply Hassign.
  - intros o plan. unfold compile.
    destruct (err c); [done|].
    destruct (if isFrozen (gg c) then (c, None) else addEnds c) as [c1 [e|]]; [done|].
    destruct (graph_compile _ _) as [g2 r] eqn:Hc. simpl. intros ->.
    apply graph_compile_ok in Hc as (_ & Hck & _ & _ & ->). simpl.
    apply wrapped_checker_accepts in Hck. apply chainCompileChecker_accepts in Hck.
    by apply Hassign.
Qed.

Lemma addNode_poisoned node c e : err c = Some e → addNode node c = c.
Proof. unfold addNode. by intros ->. Qed.

Lemma nextNodeKey_fields name c :
  err (nextNodeKey name c).2 = err c ∧ gg (nextNodeKey name c).2 = gg c ∧
  preNodeKeys (nextNodeKey name c).2 = preNodeKeys c.
Proof. unfold nextNodeKey; simpl. by case_decide. Qed.

Lemma AppendBranch_keeps_first_error b c e :
  err c = Some e → err (AppendBranch b c) = Some e.
Proof.
  intros He. unfold AppendBranch.
  destruct b as [b|]; [|by rewrite (reportError_keeps e)].
  destruct (cb_err b); [by rewrite (reportError_keeps e)|].
  case_bool_decide; [by rewrite (reportError_keeps e)|].
  case_bool_decide; [by rewrite (reportError_keeps e)|].
  destruct (startNodeOf c); [|by rewrite (reportError_keeps e)].
  pose proof (nextNodeKey_fields "Branch" c) as (Herr & _ & _).
  destruct (nextNodeKey "Branch" c) as [pName c1]. simpl in Herr. rewrite He in Herr.
  destruct (addBranchNodes _ _ _ _) as [g2 [k2n|[nodeKey e']]].
  - destruct (graph_AddBranch _ _ _) as [g3 [e'|]]; [|done].
    by rewrite (reportError_keeps e).
  - by rewrite (reportError_keeps e).
Qed.

Lemma AppendParallel_keeps_first_error p c e :
  err c = Some e → err (AppendParallel p c) = Some e.
Proof.
  intros He. unfold AppendParallel.
  destruct p as [p|]; [|by rewrite (reportError_keeps e)].
  destruct (p_err p); [by rewrite (reportError_keeps e)|].
  case_bool_decide; [by rewrite (reportError_keeps e)|].
  destruct (startNodeOf c); [|by rewrite (reportError_keeps e)].
  pose proof (nextNodeKey_fields "Parallel" c) as (Herr & _ & _).
  destruct (nextNodeKey "Parallel" c) as [pName c1]. simpl in Herr. rewrite He in Herr.
  destruct (addParallelNodes _ _ _ _ _ _) as [g2 [keys|e']]; [done|].
  by rewrite (reportError_keeps e).
Qed.

Lemma addEndEdges_edges keys : ∀ g g',
  addEndEdges keys g = (g', None) →
  buildError g' = buildError g ∧ compiled g' = compiled g ∧
  compileChecker g' = compileChecker g ∧ nodes g' = nodes g ∧ branches g' = branches g.
Proof.
  induction keys as [|k rest IH]; intros g g'; simpl.
  - by inversion 1.
  - destruct (graph_AddEdge k END g) as [g1 [e|]] eqn:Hadd; [by inversion 1|].
    intros Hrest. apply IH in Hrest as (-> & -> & -> & -> & ->).
    revert Hadd. unfold graph_AddEdge, graph_fail.
    destruct (buildError g) eqn:Hb; [by inversion 1|].
    destruct (compiled g) eqn:Hc; [by inversion 1|].
    destruct (outTypeOf g k), (inTypeOf g END); try (by inversion 1).
    destruct (assignable _ _); inversion 1; by subst.
Qed.

Lemma addEnds_err c : err (addEnds c).1 = err c.
Proof.
  unfold addEnds. destruct (preNodeKeys c); [done|].
  by destruct (addEndEdges _ _).
Qed.

Lemma graph_compile_edges o g :
  edges (graph_compile o g).1 = edges g ∧ nodes (graph_compile o g).1 = nodes g ∧
  branches (graph_compile o g).1 = branches g.
Proof.
  unfold graph_compile.
  destruct (buildError g); [done|].
  destruct (runCompileChecker g o); [done|].
  by destruct (validate _ _ _ o).
Qed.

(** Compiling a frozen, unpoisoned chain goes straight to the graph. *)
Lemma Compile_frozen opts c :
  err c = None → isFrozen (gg c) = true →
  Compile opts c =
  let r := graph_Compile (opts ++ [withComponent ComponentOfChain])
             (set_compileChecker
                (wrapCompileChecker (compileChecker (gg c)) chainCompileChecker) (gg c)) in
  (set_gg r.1 c, r.2).
Proof. unfold Compile. intros -> ->. simpl. by destruct (graph_Compile _ _). Qed.

Lemma compile_frozen o c :
  err c = None → isFrozen (gg c) = true →
  compile o c =
  let r := graph_compile o
             (set_compileChecker
                (wrapCompileChecker (compileChecker (gg c)) (λ _, chainCompileChecker o))
                (gg c)) in
  (set_gg r.1 c, r.2).
Proof. unfold compile. intros -> ->. simpl. by destruct (graph_compile _ _). Qed.

(** Compiling the same frozen graph again, with one more chain checker that
    accepts the options, gives the same plan. *)
Lemma graph_compile_again o g new plan :
  graph_compile o g = (set_compiled true g, inl plan) →
  new o = None →
  graph_compile o (set_compileChecker
                     (wrapCompileChecker (compileChecker (set_compiled true g)) new)
                     (set_compiled true g))
  = (set_compiled true
       (set_compileChecker (wrapCompileChecker (compileChecker g) new)
                           (set_compiled true g)),
     inl plan).
Proof.
  intros Hc Hnew. pose proof Hc as Hc'.
  apply graph_compile_ok in Hc' as (Hb & Hck & Hv & _ & ->).
  unfold graph_compile; simpl. rewrite Hb.
  unfold runCompileChecker, wrapCompileChecker; simpl.
  unfold runCompileChecker in Hck.
  destruct (compileChecker g) as [f|]; [rewrite Hck|]; rewrite Hnew, Hv; done.
Qed.

(** C6.  A successful [Compile] (or [compile]) freezes the graph, and
    compiling a chain whose graph is frozen adds no edge: a second [Compile]
    with the same options, also after an internal [compile], returns the
    same plan and leaves the edges as they are. *)
Theorem C6_compile_again_after_freeze (c : Chain) :
  (∀ opts plan,
     (Compile opts c).2 = inl plan →
     let c1 := (Compile opts c).1 in
     isFrozen (gg c1) = true ∧
     (Compile opts c1).2 = inl plan ∧
     edges (gg (Compile opts c1).1) = edges (gg c1)) ∧
  (∀ option plan,
     (compile option c).2 = inl plan →
     let c1 := (compile option c).1 in
     isFrozen (gg c1) = true ∧
     ∀ opts,
       newGraphCompileOptions (opts ++ [withComponent ComponentOfChain]) = option →
       (Compile opts c1).2 = inl plan ∧
       edges (gg (Compile opts c1).1) = edges (gg c1)) ∧
  (∀ opts option,
     isFrozen (gg c) = true →
     edges (gg (Compile opts c).1) = edges (gg c) ∧
     edges (gg (compile option c).1) = edges (gg c)).
Proof.
  split_and!.
  - intros opts plan. unfold Compile at 1 2.
    destruct (err c) eqn:Herr; [done|].
    pose proof (addEnds_err c) as Herr'.
    destruct (if isFrozen (gg c) then (c, None) else addEnds c) as [c0 [e|]] eqn:Hends; [done|].
    assert (err c0 = None) as Herr0.
    { destruct (isFrozen (gg c)); [by inversion Hends; subst|].
      rewrite Hends in Herr'. simpl in Herr'. congruence. }
    unfold graph_Compile.
    remember (set_compileChecker
                (wrapCompileChecker (compileChecker (gg c0)) chainCompileChecker) (gg c0))
      as g1 eqn:Hg1.
    destruct (graph_compile _ g1) as [g2 r] eqn:Hc. simpl. intros ->.
    pose proof Hc as (Hb & Hck & Hv & -> & Hplan)%graph_compile_ok.
    split; [done|].
    rewrite Compile_frozen; [|done|done]. cbn [gg set_gg fst snd]. unfold graph_Compile.
    erewrite (graph_compile_again _ _ chainCompileChecker); [done|exact Hc|].
    subst g1. by apply wrapped_checker_accepts in Hck.
  - intros o plan. unfold compile at 1 2.
    destruct (err c) eqn:Herr; [done|].
    pose proof (addEnds_err c) as Herr'.
    destruct (if isFrozen (gg c) then (c, None) else addEnds c) as [c0 [e|]] eqn:Hends; [done|].
    assert (err c0 = None) as Herr0.
    { destruct (isFrozen (gg c)); [by inversion Hends; subst|].
      rewrite Hends in Herr'. simpl in Herr'. congruence. }
    remember (set_compileChecker
                (wrapCompileChecker (compileChecker (gg c0)) (λ _, chainCompileChecker o))
                (gg c0))
      as g1 eqn:Hg1.
    destruct (graph_compile _ g1) as [g2 r] eqn:Hc. simpl. intros ->.
    pose proof Hc as (Hb & Hck & Hv & -> & Hplan)%graph_compile_ok.
    split; [done|]. intros opts Hopts.
    rewrite Compile_frozen; [|done|done]. cbn [gg set_gg fst snd].
    unfold graph_Compile. rewrite Hopts.
    erewrite (graph_compile_again _ _ chainCompileChecker); [done|exact Hc|].
    subst g1. by apply wrapped_checker_accepts in Hck.
  - intros opts o Hfrozen. unfold Compile, compile.
    destruct (err c); [done|]. rewrite Hfrozen. unfold graph_Compile.
    split.
    + destruct (graph_compile _ _) as [g2 r] eqn:Hc. simpl.
      pose proof (graph_compile_edges (newGraphCompileOptions (opts ++ [withComponent ComponentOfChain]))
        (set_compileChecker (wrapCompileChecker (compileChecker (gg c)) chainCompileChecker) (gg c)))
        as (He & _). by rewrite Hc in He.
    + destruct (graph_compile _ _) as [g2 r] eqn:Hc. simpl.
      pose proof (graph_compile_edges o
        (set_compileChecker (wrapCompileChecker (compileChecker (gg c)) (λ _, chainCompileChecker o)) (gg c)))
        as (He & _). by rewrite Hc in He.
Qed.

(** C9.  Compiling a chain to which nothing was appended fails: there are
    no predecessor keys to connect to END. *)
Theorem C9_empty_chain_does_not_compile (I O : reflectType) :
  (∀ opts, (Compile opts (NewChain I O)).2
           = inr (Errorf "pre node keys not set, number of nodes in chain= 0")) ∧
  (∀ option, (compile option (NewChain I O)).2
             = inr (Errorf "pre node keys not set, number of nodes in chain= 0")).
Proof. split; intros; reflexivity. Qed.

End ChainCompile.

Lemma C3_witness :
  gg (AppendBranch (Some oneCandidate) sampleChain) = gg sampleChain ∧
  err (AppendBranch (Some oneCandidate) sampleChain)
  = Some (Errorf "append branch invalid, nodeList length = 1") ∧
  err (AppendBranch None sampleChain)
  = Some (Errorf "append branch invalid, branch is nil").
Proof.
  assert (size (key2BranchNode oneCandidate) < 2)%nat as Hone by (vm_compute; lia).
  destruct (C3_branch_with_fewer_than_two_candidates_rejected
              (H := strictRules) (Some oneCandidate) sampleChain Hone)
    as (_ & Herr & Hgg & _).
  destruct (C3_branch_with_fewer_than_two_candidates_rejected
              (H := strictRules) None sampleChain I)
    as (_ & Hnil & _).
  split_and!; [exact Hgg|exact (Herr eq_refl)|exact (Hnil eq_refl)].
Defined.

Lemma C4_witness :
  (∃ e, (@Compile strictRules [WithNodeTriggerMode AllPredecessor] sampleChain).2 = inr e) ∧
  (∀ plan, (@Compile strictRules [WithNodeTriggerMode AnyPredecessor] sampleChain).2 = inl plan →
           plan_triggerMode plan = AnyPredecessor).
Proof.
  destruct (C4_chain_rejects_other_trigger_modes (H := strictRules) sampleChain)
    as (Hrej & _ & Hok & _).
  split.
  - apply (Hrej [WithNodeTriggerMode AllPredecessor]); vm_compute; discriminate.
  - apply Hok.
Defined.

Lemma C6_witness :
  ∃ plan,
    (@Compile strictRules [] sampleChain).2 = inl plan ∧
    isFrozen (gg (@Compile strictRules [] sampleChain).1) = true ∧
    (@Compile strictRules [] (@Compile strictRules [] sampleChain).1).2 = inl plan ∧
    edges (gg (@Compile strictRules [] (@Compile strictRules [] sampleChain).1).1)
    = edges (gg (@Compile strictRules [] sampleChain).1).
Proof.
  eexists. split; [vm_compute; reflexivity|].
  apply (proj1 (C6_compile_again_after_freeze (H := strictRules) sampleChain) []).
  vm_compute. reflexivity.
Defined.

(** C5, at the input that breaks it.  [AppendBranch(nil)] poisons a fresh
    chain; a following [AppendBranch] with a two-candidate branch keeps the
    first error but still adds the two candidate nodes and the branch to the
    underlying graph: only [addNode] returns early on a poisoned chain. *)
Theorem C5_poisoned_chain_AppendBranch_still_adds_nodes :
  let c0 := AppendBranch None (NewChain TString TString) in
  let c1 := AppendBranch (Some twoCandidates) c0 in
  err c0 = Some (Errorf "append branch invalid, branch is nil") ∧
  err c1 = err c0 ∧
  nodes (gg c0) = ∅ ∧
  (map_to_list (nodes (gg c1))).*1 = ["Chain[0]_Branch[a]_A"; "Chain[0]_Branch[b]_B"] ∧
  length (branches (gg c0)) = 0%nat ∧
  length (branches (gg c1)) = 1%nat ∧
  gg c1 ≠ gg c0.
Proof.
  vm_compute. split_and!; try reflexivity.
  intros Heq. discriminate Heq.
Qed.

Section ReactProperties.
Context `{GraphRules}.

Lemma graph_AddEdge_ok s t g g' :
  graph_AddEdge s t g = (g', None) → g' = set_edges (edges g ++ [(s, t)]) g.
Proof.
  unfold graph_AddEdge, graph_fail.
  destruct (buildError g); [by inversion 1|].
  destruct (compiled g); [by inversion 1|].
  destruct (outTypeOf g s), (inTypeOf g t); try (by inversion 1).
  destruct (assignable _ _); by inversion 1.
Qed.

Lemma andThen_ok r k g' :
  react.andThen r k = (g', None) → ∃ g, r = (g, None) ∧ k g = (g', None).
Proof. destruct r as [g [e|]]; simpl; [by inversion 1|]. eauto. Qed.

(** C7.  With no step bound configured the compiler assigns the node count
    plus 10; the ReAct graph built without return-directly tools has the two
    nodes "chat" and "tools", so an agent that leaves [MaxStep] at zero runs
    with a bound of 12 steps. *)
Theorem C7_default_max_steps :
  (∀ o g g' plan,
     graph_compile o g = (g', inl plan) → ¬ (0 < maxRunSteps o)%Z →
     plan_maxSteps plan = (Z.of_nat (size (nodes g)) + 10)%Z) ∧
  (∀ collab st config agent,
     react.MaxStep config = 0%Z →
     react.ToolReturnDirectly config = ∅ →
     react.NewAgent collab st config = inl agent →
     size (nodes (react.graph agent)) = 2%nat ∧
     plan_maxSteps (react.runnable agent) = 12%Z).
Proof.
  split.
  - intros o g g' plan (_ & _ & _ & _ & ->)%graph_compile_ok Hle. simpl.
    by rewrite bool_decide_eq_false_2.
  - intros collab st config agent Hmax Hset. unfold react.NewAgent.
    destruct collab; [done|]. rewrite Hset, Hmax.
    rewrite bool_decide_eq_false_2; [|rewrite size_empty; lia].
    destruct (react.andThen _ _) as [g [e|]] eqn:Hbuilt; [done|].
    apply andThen_ok in Hbuilt as (g1 & (? & -> & _)%graph_addNode_ok & Hbuilt).
    apply andThen_ok in Hbuilt as (g2 & ->%graph_AddEdge_ok & Hbuilt).
    apply andThen_ok in Hbuilt as (g3 & (? & -> & _)%graph_addNode_ok & Hbuilt).
    apply andThen_ok in Hbuilt as (g4 & ->%graph_AddBranch_ok & ->%graph_AddEdge_ok).
    unfold graph_Compile.
    destruct (graph_compile _ _) as [g' [plan|e]] eqn:Hc; [|done].
    intros Hagent. inversion Hagent; subst; clear Hagent. simpl.
    apply graph_compile_ok in Hc as (_ & _ & _ & -> & ->). simpl.
    split; reflexivity.
Qed.

End ReactProperties.

Lemma C7_witness :
  ∃ agent,
    @react.NewAgent strictRules None None plainConfig = inl agent ∧
    size (nodes (react.graph agent)) = 2%nat ∧
    plan_maxSteps (react.runnable agent) = 12%Z.
Proof.
  eexists. split; [vm_compute; reflexivity|].
  apply (proj2 (C7_default_max_steps (H := strictRules)) None None plainConfig);
    [reflexivity|reflexivity|vm_compute; reflexivity].
Defined.

(** One round of the loop of [firstChunkStreamToolCallChecker] is one [Recv]. *)
Lemma firstChunkBody_unfold (sr : StreamReader Message) :
  react.firstChunkBody sr =
  match Recv sr with
  | (EOF, sr') => ((false, None), sr')
  | (Failed e, sr') => ((false, Some e), sr')
  | (Got msg, sr') =>
    if bool_decide (0 < length (ToolCalls msg))%nat then ((true, None), sr')
    else if bool_decide (String.length (Content msg) = 0%nat) then react.firstChunkBody sr'
    else ((false, None), sr')
  end.
Proof.
  destruct sr as [items cl]. unfold react.firstChunkBody, Recv; simpl.
  destruct items as [|[msg|e] rest]; simpl; try done.
  repeat case_bool_decide; try done.
Qed.

Lemma firstChunkLoop_skip skipped items :
  react.firstChunkLoop (emptyChunks skipped ++ items)%list = react.firstChunkLoop items.
Proof. induction skipped as [|[role id] rest IH]; simpl; done. Qed.

Lemma transformConTraced_result b key2NodeKey sr :
  (transformConTraced b key2NodeKey sr).1 = transformCon b key2NodeKey sr.
Proof.
  unfold transformConTraced, transformCon.
  destruct (cr_t (cb_condition b) sr) as [iEndStream|e]; [|done].
  case_decide; [done|].
  destruct (unpackStreamReader_string iEndStream) as [endStream|]; [|done].
  destruct (concatStreamReader endStream) as [endStr|e]; [|done].
  by destruct (key2NodeKey !! endStr).
Qed.

(** C8, as amended.  [firstChunkStreamToolCallChecker] returns with its
    stream closed on every exit path: at the end of the stream, on a receive
    error, on a chunk with tool calls, and on the first chunk with content,
    whatever empty chunks came first; the return-directly branch condition
    closes its stream whether or not the run state can be read.  The branch
    condition after the model does not close its stream itself: it returns
    the stream as the configured checker left it, which is closed with the
    default checker. *)
Theorem C8_checker_and_return_directly_condition_close_their_stream :
  (∀ sr, closed (react.firstChunkStreamToolCallChecker sr).2 = true) ∧
  (∀ skipped cl,
     react.firstChunkStreamToolCallChecker (mkStreamReader (emptyChunks skipped) cl)
     = ((false, None), mkStreamReader [] true)) ∧
  (∀ skipped e rest cl,
     react.firstChunkStreamToolCallChecker
       (mkStreamReader (emptyChunks skipped ++ RecvErr e :: rest)%list cl)
     = ((false, Some e), mkStreamReader rest true)) ∧
  (∀ skipped role content call calls id rest cl,
     react.firstChunkStreamToolCallChecker
       (mkStreamReader
          (emptyChunks skipped ++ Chunk (mkMessage role content (call :: calls) id) :: rest)%list cl)
     = ((true, None), mkStreamReader rest true)) ∧
  (∀ skipped role ch content id rest cl,
     react.firstChunkStreamToolCallChecker
       (mkStreamReader
          (emptyChunks skipped ++ Chunk (mkMessage role (String ch content) [] id) :: rest)%list cl)
     = ((false, None), mkStreamReader rest true)) ∧
  (∀ st sr,
     (react.returnDirectlyCondition st sr).2 = Close sr ∧
     closed (react.returnDirectlyCondition st sr).2 = true) ∧
  (∀ (checker : react.toolCallChecker) sr,
     (react.modelPostBranchCondition checker sr).2 = (checker sr).2) ∧
  (∀ sr,
     closed (react.modelPostBranchCondition react.firstChunkStreamToolCallChecker sr).2
     = true).
Proof.
  assert (∀ (checker : react.toolCallChecker) sr,
            (react.modelPostBranchCondition checker sr).2 = (checker sr).2) as Hhands.
  { intros checker sr. unfold react.modelPostBranchCondition.
    by destruct (checker sr) as [[[|] [e|]] sr']. }
  assert (∀ sr, closed (react.firstChunkStreamToolCallChecker sr).2 = true) as Hdefault.
  { intros sr. unfold react.firstChunkStreamToolCallChecker.
    by destruct (react.firstChunkBody sr). }
  split_and!.
  - exact Hdefault.
  - intros. unfold react.firstChunkStreamToolCallChecker, react.firstChunkBody; simpl.
    rewrite <- (app_nil_r (emptyChunks skipped)). by rewrite firstChunkLoop_skip.
  - intros. unfold react.firstChunkStreamToolCallChecker, react.firstChunkBody; simpl.
    by rewrite firstChunkLoop_skip.
  - intros. unfold react.firstChunkStreamToolCallChecker, react.firstChunkBody; simpl.
    by rewrite firstChunkLoop_skip.
  - intros. unfold react.firstChunkStreamToolCallChecker, react.firstChunkBody; simpl.
    by rewrite firstChunkLoop_skip.
  - intros st sr. unfold react.returnDirectlyCondition.
    by destruct (react.ProcessState st _).
  - exact Hhands.
  - intros sr. rewrite Hhands. apply Hdefault.
Qed.

(** C8 as stated, at the inputs that break it.  Not every function that
    receives a stream closes it on every exit path: the branch condition
    after the model, run with a checker that returns without closing, hands
    back an open stream; and when the condition of a chain branch hands back
    a stream that is not of strings, [transformCon] returns its error with
    that stream still open. *)
Lemma C8_counterexample_not_every_receiver_closes :
  closed (react.modelPostBranchCondition
            neglectfulChecker (StreamReaderFromArray [threeCalls])).2 = false ∧
  transformConTraced intStreamBranch {[ "a" := "Chain[0]_Branch[a]_A" ]}
                     (packString (StreamReaderFromArray ["a"]))
  = (inr (Errorf "chain branch result not string, got: int"),
     Some (packOther "int" (StreamReaderFromArray [AnyInt 3]))) ∧
  streamClosed (packOther "int" (StreamReaderFromArray [AnyInt 3])) = false ∧
  ¬ (∀ (checker : react.toolCallChecker) sr,
       closed (react.modelPostBranchCondition checker sr).2 = true) ∧
  ¬ (∀ b key2NodeKey sr left,
       (transformConTraced b key2NodeKey sr).2 = Some left → streamClosed left = true).
Proof.
  split_and!; try reflexivity.
  - intros Hall.
    specialize (Hall neglectfulChecker (StreamReaderFromArray [threeCalls])).
    discriminate Hall.
  - intros Hall.
    specialize (Hall intStreamBranch ∅ (packString (StreamReaderFromArray ["a"]))
                     (packOther "int" (StreamReaderFromArray [AnyInt 3])) eq_refl).
    discriminate Hall.
Qed.

Lemma firstReturnDirectly_find calls (set : gset string) :
  react.firstReturnDirectly calls set =
  match List.find (λ tc, bool_decide (Name (Function tc) ∈ set)) calls with
  | Some tc => ID tc
  | None => ""
  end.
Proof. induction calls as [|tc rest IH]; simpl; [done|]. by case_bool_decide. Qed.

Lemma firstReturnDirectly_none calls (set : gset string) :
  Forall (λ tc, Name (Function tc) ∉ set) calls → react.firstReturnDirectly calls set = "".
Proof.
  induction 1 as [|tc rest Hno _ IH]; simpl; [done|].
  by rewrite bool_decide_eq_false_2.
Qed.

(** C10.  [getReturnDirectlyToolCallID] returns the ID of the first tool
    call of the message whose function name is in the return-directly set,
    and the empty string when the set is empty or no tool call matches. *)
Theorem C10_first_return_directly_tool_call (input : Message) (set : gset string) :
  react.getReturnDirectlyToolCallID input set = react.firstMatchingToolCallID input set ∧
  (set = ∅ → react.getReturnDirectlyToolCallID input set = "") ∧
  (Forall (λ tc, Name (Function tc) ∉ set) (ToolCalls input) →
   react.getReturnDirectlyToolCallID input set = "") ∧
  (∀ pre tc post,
     ToolCalls input = (pre ++ tc :: post)%list →
     Forall (λ x, Name (Function x) ∉ set) pre →
     Name (Function tc) ∈ set →
     react.getReturnDirectlyToolCallID input set = ID tc).
Proof.
  assert (set ≠ ∅ → react.getReturnDirectlyToolCallID input set
                    = react.firstReturnDirectly (ToolCalls input) set) as Hne.
  { intros Hne. unfold react.getReturnDirectlyToolCallID.
    rewrite bool_decide_eq_false_2; [done|]. by intros ?%size_empty_inv%leibniz_equiv. }
  assert (set = ∅ → react.getReturnDirectlyToolCallID input set = "") as Hempty.
  { intros ->. unfold react.getReturnDirectlyToolCallID. by rewrite size_empty. }
  split_and!.
  - unfold react.firstMatchingToolCallID. destruct (decide (set = ∅)) as [->|Hn].
    + rewrite Hempty; [|done].
      rewrite <- firstReturnDirectly_find.
      symmetry. apply firstReturnDirectly_none.
      apply Forall_forall. intros; set_solver.
    + rewrite Hne; [|done]. apply firstReturnDirectly_find.
  - done.
  - intros Hall. destruct (decide (set = ∅)) as [->|Hn]; [by apply Hempty|].
    rewrite Hne; [|done]. by apply firstReturnDirectly_none.
  - intros pre tc post Hcalls Hpre Hin.
    assert (set ≠ ∅) as Hn by set_solver.
    rewrite Hne; [|done]. rewrite Hcalls. clear Hcalls.
    induction Hpre as [|x pre Hx _ IH]; simpl.
    + by rewrite bool_decide_eq_true_2.
    + by rewrite bool_decide_eq_false_2.
Qed.

Lemma C10_witness :
  react.getReturnDirectlyToolCallID threeCalls {[ "finish"; "answer" ]} = "2" ∧
  react.getReturnDirectlyToolCallID threeCalls ∅ = "" ∧
  react.getReturnDirectlyToolCallID threeCalls {[ "other" ]} = "".
Proof.
  split_and!.
  - apply (proj2 (proj2 (proj2 (C10_first_return_directly_tool_call
                                   threeCalls {[ "finish"; "answer" ]})))
             [call "1" "search"] (call "2" "finish") [call "3" "answer"]).
    + reflexivity.
    + constructor; [vm_compute; discriminate|constructor].
    + vm_compute. reflexivity.
  - apply (proj1 (proj2 (C10_first_return_directly_tool_call threeCalls ∅))). reflexivity.
  - apply (proj1 (proj2 (proj2 (C10_first_return_directly_tool_call threeCalls {[ "other" ]})))).
    repeat (constructor; [vm_compute; discriminate|]). constructor.
Defined.

(** * Further properties of the builder, the agent and the helpers *)

Section ChainMore.
Context `{GraphRules}.

(** X1.  Once a chain has recorded an error, no sequence of builder calls
    ([Append<Component>], [AppendBranch], [AppendParallel]) replaces or clears
    it, and [Compile] and [compile] return exactly that first error. *)
Theorem X1_first_error_survives_every_call (ks : list ChainCall) (c : Chain) (e : error) :
  err c = Some e →
  err (runCalls ks c) = Some e ∧
  (∀ opts, (Compile opts (runCalls ks c)).2 = inr e) ∧
  (∀ option, (compile option (runCalls ks c)).2 = inr e).
Proof.
  intros He.
  assert (err (runCalls ks c) = Some e) as Hall.
  { revert c He. induction ks as [|k ks IH]; intros c He; [done|].
    simpl. apply IH. destruct k; simpl.
    - by rewrite (addNode_poisoned _ _ e).
    - by apply AppendBranch_keeps_first_error.
    - by apply AppendParallel_keeps_first_error. }
  split_and!; [done| |].
  - intros opts. by rewrite (Compile_poisoned _ _ e).
  - intros o. by rewrite (compile_poisoned _ _ e).
Qed.

(** X2.  [AppendParallel] with a nil parallel, or with a parallel of fewer
    than two nodes, only reports an error: on a chain without an error it is
    the check's own error (nil parallel, the parallel's error, or the node
    count), and the graph, the predecessor keys and the node index stay as
    they were. *)
Theorem X2_parallel_with_fewer_than_two_nodes_rejected (p : option Parallel) (c : Chain) :
  match p with
  | None => True
  | Some p => (length (p_nodes p) ≤ 1)%nat
  end →
  let c' := AppendParallel p c in
  (∃ e, err c' = Some e) ∧
  (err c = None →
   err c' = Some
     match p with
     | None => Errorf "append parallel invalid, parallel is nil"
     | Some p =>
       match p_err p with
       | Some e => Wrapf "append parallel invalid, parallel error: " e
       | None => Errorf ("append parallel invalid, not enough nodes, count = "
                         +:+ pretty (length (p_nodes p)))
       end
     end) ∧
  gg c' = gg c ∧ preNodeKeys c' = preNodeKeys c ∧ nodeIdx c' = nodeIdx c.
Proof.
  intros Hsmall c'.
  assert (∃ e, c' = reportError (Some e) c ∧
               (err c = None → e =
     match p with
     | None => Errorf "append parallel invalid, parallel is nil"
     | Some p =>
       match p_err p with
       | Some e => Wrapf "append parallel invalid, parallel error: " e
       | None => Errorf ("append parallel invalid, not enough nodes, count = "
                         +:+ pretty (length (p_nodes p)))
       end
     end)) as (e & Hc' & He).
  { subst c'. unfold AppendParallel. destruct p as [p|]; [|eauto].
    destruct (p_err p); [eauto|].
    case_bool_decide; [eauto|]. lia. }
  rewrite Hc'. split_and!.
  - apply reportError_Some.
  - intros Hnone. rewrite reportError_first; [|done]. by rewrite (He Hnone).
  - apply reportError_gg.
  - apply reportError_preNodeKeys.
  - apply reportError_nodeIdx.
Qed.

Lemma startNodeOf_many c : (2 ≤ length (preNodeKeys c))%nat → startNodeOf c = None.
Proof.
  unfold startNodeOf. destruct (preNodeKeys c) as [|k [|k' rest]]; simpl; [lia|lia|done].
Qed.

Lemma AppendBranch_many b c :
  (2 ≤ length (preNodeKeys c))%nat → ∃ e, AppendBranch b c = reportError (Some e) c.
Proof.
  intros Hmany. unfold AppendBranch. destruct b as [b|]; [|eauto].
  destruct (cb_err b); [eauto|].
  case_bool_decide; [eauto|]. case_bool_decide; [eauto|].
  rewrite startNodeOf_many; [eauto|done].
Qed.

Lemma AppendParallel_many p c :
  (2 ≤ length (preNodeKeys c))%nat → ∃ e, AppendParallel p c = reportError (Some e) c.
Proof.
  intros Hmany. unfold AppendParallel. destruct p as [p|]; [|eauto].
  destruct (p_err p); [eauto|].
  case_bool_decide; [eauto|].
  rewrite startNodeOf_many; [eauto|done].
Qed.

(** X3.  A chain whose last step left two or more predecessor keys (a
    branch or a parallel) accepts neither [AppendBranch] nor [AppendParallel]:
    both report an error and leave the graph and the predecessor keys
    unchanged. *)
Theorem X3_branch_or_parallel_needs_single_predecessor
        (b : option ChainBranch) (p : option Parallel) (c : Chain) :
  (2 ≤ length (preNodeKeys c))%nat →
  (∃ e, err (AppendBranch b c) = Some e) ∧
  gg (AppendBranch b c) = gg c ∧ preNodeKeys (AppendBranch b c) = preNodeKeys c ∧
  (∃ e, err (AppendParallel p c) = Some e) ∧
  gg (AppendParallel p c) = gg c ∧ preNodeKeys (AppendParallel p c) = preNodeKeys c.
Proof.
  intros Hmany.
  destruct (AppendBranch_many b c Hmany) as [e1 ->].
  destruct (AppendParallel_many p c Hmany) as [e2 ->].
  split_and!; auto using reportError_Some, reportError_gg, reportError_preNodeKeys.
Qed.

Lemma gmap_Values_length (m : gmap string string) : length (gmap_Values m) = size m.
Proof. unfold gmap_Values. by rewrite length_fmap, length_map_to_list. Qed.

Lemma AppendBranch_ok_size b c :
  err (AppendBranch (Some b) c) = None → (2 ≤ size (key2BranchNode b))%nat.
Proof.
  unfold AppendBranch. destruct (cb_err b).
  { intros Hn. edestruct reportError_Some as [? Hs]. rewrite Hs in Hn. done. }
  case_bool_decide.
  { intros Hn. edestruct reportError_Some as [? Hs]. rewrite Hs in Hn. done. }
  case_bool_decide.
  { intros Hn. edestruct reportError_Some as [? Hs]. rewrite Hs in Hn. done. }
  intros _. lia.
Qed.

(** X4.  After an [AppendBranch] that reported no error the chain waits on
    one predecessor key per candidate of the branch: as many keys as
    candidates (at least two), each candidate's generated key among them, so
    an [AppendBranch] or [AppendParallel] right after it is rejected. *)
Theorem X4_branch_leaves_one_predecessor_per_candidate (b : ChainBranch) (c : Chain) :
  err (AppendBranch (Some b) c) = None →
  let c' := AppendBranch (Some b) c in
  length (preNodeKeys c') = size (key2BranchNode b) ∧
  (2 ≤ length (preNodeKeys c'))%nat ∧
  (∀ key node, key2BranchNode b !! key = Some node →
               branchNodeKey (nextNodeKey "Branch" c).1 key node ∈ preNodeKeys c') ∧
  (∀ b2, ∃ e, err (AppendBranch b2 c') = Some e) ∧
  (∀ p, ∃ e, err (AppendParallel p c') = Some e).
Proof.
  intros Hok c'.
  destruct (AppendBranch_added b c Hok) as (startNode & k2n & _ & Hk2n & _ & _ & Hpre).
  pose proof (AppendBranch_ok_size b c Hok) as Hsize.
  assert (size k2n = size (key2BranchNode b)) as Hsz.
  { rewrite <- !size_dom. f_equal. apply set_eq. intros k.
    rewrite !elem_of_dom, Hk2n. destruct (key2BranchNode b !! k); simpl; split; intros [? ?]; eauto; done. }
  assert (length (preNodeKeys c') = size (key2BranchNode b)) as Hlen.
  { subst c'. by rewrite Hpre, gmap_Values_length. }
  split_and!; [done|lia| | |].
  - intros key node Hk. subst c'. rewrite Hpre. apply (gmap_Values_elem _ key).
    by rewrite Hk2n, Hk.
  - intros b2. destruct (AppendBranch_many b2 c') as [e ->]; [lia|]. apply reportError_Some.
  - intros p. destruct (AppendParallel_many p c') as [e ->]; [lia|]. apply reportError_Some.
Qed.


Lemma graph_AddEdge_ok' s t g g' :
  graph_AddEdge s t g = (g', None) →
  g' = set_edges (edges g ++ [(s, t)]) g ∧ buildError g = None ∧ compiled g = false.
Proof.
  unfold graph_AddEdge, graph_fail.
  destruct (buildError g) eqn:Hb; [by inversion 1|].
  destruct (compiled g) eqn:Hc; [by inversion 1|].
  destruct (outTypeOf g s), (inTypeOf g t); try (by inversion 1).
  destruct (assignable _ _); by inversion 1.
Qed.

Lemma addPreEdges_ok pres nodeKey : ∀ g g',
  addPreEdges pres nodeKey g = (g', None) →
  g' = set_edges (edges g ++ ((λ p, (p, nodeKey)) <$> pres)) g.
Proof.
  induction pres as [|p rest IH]; intros g g'; simpl.
  - inversion 1; subst. destruct g'. unfold set_edges; simpl. by rewrite app_nil_r.
  - destruct (graph_AddEdge p nodeKey g) as [g1 [e|]] eqn:Hadd; [by inversion 1|].
    apply graph_AddEdge_ok' in Hadd as (-> & _ & _).
    intros ->%IH. unfold set_edges; simpl. by rewrite <- app_assoc.
Qed.

Lemma addEndEdges_ok keys : ∀ g g',
  addEndEdges keys g = (g', None) →
  g' = set_edges (edges g ++ ((λ k, (k, END)) <$> keys)) g.
Proof.
  induction keys as [|k rest IH]; intros g g'; simpl.
  - inversion 1; subst. destruct g'. unfold set_edges; simpl. by rewrite app_nil_r.
  - destruct (graph_AddEdge k END g) as [g1 [e|]] eqn:Hadd; [by inversion 1|].
    apply graph_AddEdge_ok' in Hadd as (-> & _ & _).
    intros ->%IH. unfold set_edges; simpl. by rewrite <- app_assoc.
Qed.

Lemma reportError_None c : reportError None c = c.
Proof. unfold reportError. destruct c as [[e|] ? ? ? ?]; done. Qed.

#[local] Arguments addPreEdges : simpl never.

(** X5.  An [addNode] that reported no error registered the node under its
    key (the user-set key, or the generated one), which was not yet in the
    graph, added one edge to it from every predecessor key (from START for
    the first node), touched no branch, made the key the only predecessor and
    advanced the node index by one. *)
Theorem X5_addNode_links_every_predecessor (node : graphNode) (c : Chain) :
  err (addNode (Some node) c) = None →
  let c' := addNode (Some node) c in
  let key := chainNodeKey node c in
  preNodeKeys c' = [key] ∧
  nodes (gg c) !! key = None ∧
  nodes (gg c') = <[key := node]> (nodes (gg c)) ∧
  edges (gg c') =
    (edges (gg c) ++ ((λ p, (p, key)) <$> match preNodeKeys c with
                                           | [] => [START]
                                           | pres => pres
                                           end))%list ∧
  branches (gg c') = branches (gg c) ∧
  nodeIdx c' = wrap64 (nodeIdx c + 1).
Proof.
  unfold addNode, chainNodeKey. destruct (err c) eqn:Herr; [by rewrite Herr|].
  pose proof (nextNodeKey_fields (getNodeName node) c) as (Herr1 & Hgg1 & Hpre1).
  assert (nodeIdx (nextNodeKey (getNodeName node) c).2 = wrap64 (nodeIdx c + 1)) as Hidx.
  { unfold nextNodeKey; simpl. by case_decide. }
  destruct (nextNodeKey (getNodeName node) c) as [gen c1]; simpl in *.
  set (key := if decide (nodeInfo_key node ≠ "") then nodeInfo_key node else gen).
  destruct (graph_addNode key node (gg c1)) as [g2 [e|]] eqn:Hadd.
  { (* the graph refused the node: the chain is in error whatever follows *)
    intros Hn. exfalso.
    assert (∃ e', err (reportError (Some e) (set_gg g2 c1)) = Some e') as [e' He']
      by apply reportError_Some.
    set (c2 := reportError (Some e) (set_gg g2 c1)) in *.
    destruct (preNodeKeys c2) eqn:Hp;
      destruct (addPreEdges _ key _) as [g4 [e4|]];
      first [ rewrite (reportError_keeps e') in Hn; [simpl in Hn; congruence|simpl; done]
            | simpl in Hn; congruence ]. }
  apply graph_addNode_ok in Hadd as (Hfresh & -> & _ & _).
  rewrite !reportError_None. simpl. rewrite Hpre1, Hgg1 in *.
  destruct (preNodeKeys c) as [|p0 pres] eqn:Hpres; simpl;
    (destruct (addPreEdges _ key _) as [g4 [e|]] eqn:Hrest;
     [intros Hn; edestruct reportError_Some as [? Hs]; rewrite Hs in Hn; done|]);
    apply addPreEdges_ok in Hrest as ->; simpl; intros _;
    rewrite ?Hpre1; by split_and!.
Qed.


Lemma parallelNodeKeys_length pName ns : ∀ i, length (parallelNodeKeys pName i ns) = length ns.
Proof. induction ns as [|n rest IH]; intros i; simpl; [done|]. by rewrite IH. Qed.

Lemma addParallelNodes_ok pName startNode ns : ∀ i g acc g' keys,
  addParallelNodes pName startNode i ns g acc = (g', inl keys) →
  keys = (acc ++ parallelNodeKeys pName i ns)%list ∧
  edges g' = (edges g ++ ((λ k, (startNode, k)) <$> parallelNodeKeys pName i ns))%list ∧
  nodes g ⊆ nodes g' ∧
  branches g' = branches g ∧
  (∀ (j : nat) node, ns !! j = Some node →
     nodes g' !! (pName +:+ "[" +:+ pretty (i + Z.of_nat j)%Z +:+ "]_" +:+ getNodeName node)
     = Some node).
Proof.
  induction ns as [|node rest IH]; intros i g acc g' keys; simpl.
  - inversion 1; subst. rewrite !app_nil_r. split_and!; try done.
  - destruct (graph_addNode _ node g) as [g1 [e|]] eqn:Hadd; [by inversion 1|].
    apply graph_addNode_ok in Hadd as (Hfresh & -> & _ & _).
    destruct (graph_AddEdge startNode _ _) as [g2 [e|]] eqn:Hedge; [by inversion 1|].
    apply graph_AddEdge_ok' in Hedge as (-> & _ & _).
    intros (-> & He & Hsub & Hbr & Hin)%IH. simpl in *.
    split_and!.
    + by rewrite <- app_assoc.
    + rewrite He. by rewrite <- app_assoc.
    + etrans; [|exact Hsub]. by apply insert_subseteq.
    + done.
    + intros [|j] n Hj; simpl in Hj.
      * inversion Hj; subst. rewrite Z.add_0_r.
        eapply lookup_weaken; [|exact Hsub]. by rewrite lookup_insert_eq.
      * replace (i + Z.of_nat (S j))%Z with (i + 1 + Z.of_nat j)%Z by lia. by apply Hin.
Qed.

Lemma AppendParallel_added (p : Parallel) (c : Chain) :
  err (AppendParallel (Some p) c) = None →
  ∃ startNode g2 keys,
    startNodeOf c = Some startNode ∧ (2 ≤ length (p_nodes p))%nat ∧
    addParallelNodes (nextNodeKey "Parallel" c).1 startNode 0 (p_nodes p) (gg c) []
    = (g2, inl keys) ∧
    AppendParallel (Some p) c
    = set_preNodeKeys keys (set_gg g2 (nextNodeKey "Parallel" c).2).
Proof.
  unfold AppendParallel.
  destruct (p_err p).
  { intros Hn. edestruct reportError_Some as [? Hs]. rewrite Hs in Hn. done. }
  case_bool_decide as Hlen.
  { intros Hn. edestruct reportError_Some as [? Hs]. rewrite Hs in Hn. done. }
  destruct (startNodeOf c) as [startNode|] eqn:Hstart.
  2:{ intros Hn. edestruct reportError_Some as [? Hs]. rewrite Hs in Hn. done. }
  pose proof (nextNodeKey_fields "Parallel" c) as (_ & Hgg1 & _).
  destruct (nextNodeKey "Parallel" c) as [pName c1]; simpl in *. rewrite Hgg1.
  destruct (addParallelNodes pName startNode 0 (p_nodes p) (gg c) [])
    as [g2 [keys|e]] eqn:Hloop.
  2:{ intros Hn. edestruct reportError_Some as [? Hs]. rewrite Hs in Hn. done. }
  intros _. exists startNode, g2, keys. split_and!; try done. lia.
Qed.

(** X6.  An [AppendParallel] that reported no error started from the single
    predecessor of the chain, registered node [i] of the parallel under
    [pName[i]_name], added one edge from the predecessor to each of them in
    order, left the branches alone and made the generated keys the new
    predecessors, so a branch or parallel right after it is rejected. *)
Theorem X6_parallel_fans_out_from_one_predecessor (p : Parallel) (c : Chain) :
  err (AppendParallel (Some p) c) = None →
  let c' := AppendParallel (Some p) c in
  let pName := (nextNodeKey "Parallel" c).1 in
  ∃ startNode,
    startNodeOf c = Some startNode ∧
    preNodeKeys c' = parallelNodeKeys pName 0 (p_nodes p) ∧
    length (preNodeKeys c') = length (p_nodes p) ∧
    (2 ≤ length (p_nodes p))%nat ∧
    edges (gg c') = (edges (gg c) ++ ((λ k, (startNode, k)) <$> preNodeKeys c'))%list ∧
    branches (gg c') = branches (gg c) ∧
    (∀ (j : nat) node, p_nodes p !! j = Some node →
       nodes (gg c') !! (pName +:+ "[" +:+ pretty (Z.of_nat j) +:+ "]_" +:+ getNodeName node)
       = Some node) ∧
    (∀ b2, ∃ e, err (AppendBranch b2 c') = Some e) ∧
    (∀ p2, ∃ e, err (AppendParallel p2 c') = Some e).
Proof.
  intros Hok c' pName.
  destruct (AppendParallel_added p c Hok) as (startNode & g2 & keys & Hstart & Hlen & Hloop & Hc').
  apply addParallelNodes_ok in Hloop as (-> & He & Hsub & Hbr & Hin).
  assert (preNodeKeys c' = parallelNodeKeys pName 0 (p_nodes p)) as Hpre
    by (subst c'; by rewrite Hc').
  assert (gg c' = g2) as Hgg by (subst c'; by rewrite Hc').
  assert (2 ≤ length (preNodeKeys c'))%nat as Hmany
    by (rewrite Hpre, parallelNodeKeys_length; lia).
  exists startNode. rewrite Hgg. split_and!; try done.
  - by rewrite Hpre, parallelNodeKeys_length.
  - by rewrite He, Hpre.
  - intros b2. edestruct (AppendBranch_many b2 c') as [e ->]; [|apply reportError_Some]. done.
  - intros p2. edestruct (AppendParallel_many p2 c') as [e ->]; [|apply reportError_Some]. done.
Qed.

Lemma addEnds_ok c c' :
  addEnds c = (c', None) →
  preNodeKeys c ≠ [] ∧
  c' = set_gg (set_edges (edges (gg c) ++ ((λ k, (k, END)) <$> preNodeKeys c)) (gg c)) c.
Proof.
  unfold addEnds. destruct (preNodeKeys c) as [|k rest] eqn:Hp; [by inversion 1|].
  destruct (addEndEdges (k :: rest) (gg c)) as [g' [e|]] eqn:Hends; [by inversion 1|].
  apply addEndEdges_ok in Hends as ->. by inversion 1.
Qed.

(** X7.  When [Compile] of a chain that is not frozen succeeds, the chain
    had at least one predecessor key and the plan holds the chain's edges
    followed by one edge to END from each predecessor key; nodes and branches
    are the chain's, and the predecessor keys are kept. *)
Theorem X7_compiled_chain_ends_at_its_last_nodes
        (opts : list GraphCompileOption) (c : Chain) (plan : composedPlan) :
  isFrozen (gg c) = false →
  (Compile opts c).2 = inl plan →
  preNodeKeys c ≠ [] ∧
  plan_edges plan = (edges (gg c) ++ ((λ k, (k, END)) <$> preNodeKeys c))%list ∧
  plan_nodes plan = nodes (gg c) ∧
  plan_branches plan = branches (gg c) ∧
  preNodeKeys (Compile opts c).1 = preNodeKeys c.
Proof.
  intros Hfrozen. unfold Compile. destruct (err c); [done|]. rewrite Hfrozen.
  destruct (addEnds c) as [c1 [e|]] eqn:Hends; [done|].
  apply addEnds_ok in Hends as (Hne & ->).
  unfold graph_Compile. destruct (graph_compile _ _) as [g2 r] eqn:Hc. simpl. intros ->.
  apply graph_compile_ok in Hc as (_ & _ & _ & -> & ->). simpl. done.
Qed.

End ChainMore.

Lemma X1_witness :
  let calls := [CallAddNode (Some (lambdaNode "L")); CallAppendBranch (Some twoCandidates);
                CallAppendParallel (Some twoNodeParallel)] in
  err (@runCalls strictRules calls poisonedChain)
  = Some (Errorf "append branch invalid, branch is nil") ∧
  (@Compile strictRules [] (@runCalls strictRules calls poisonedChain)).2
  = inr (Errorf "append branch invalid, branch is nil").
Proof.
  intros calls.
  destruct (X1_first_error_survives_every_call (H := strictRules) calls poisonedChain
              (Errorf "append branch invalid, branch is nil") eq_refl) as (He & Hc & _).
  split; [exact He|exact (Hc [])].
Defined.

Lemma X2_witness :
  err (@AppendParallel strictRules (Some oneNodeParallel) sampleChain)
  = Some (Errorf "append parallel invalid, not enough nodes, count = 1") ∧
  gg (@AppendParallel strictRules (Some oneNodeParallel) sampleChain) = gg sampleChain.
Proof.
  assert (length (p_nodes oneNodeParallel) ≤ 1)%nat as Hone by (simpl; lia).
  destruct (X2_parallel_with_fewer_than_two_nodes_rejected
              (H := strictRules) (Some oneNodeParallel) sampleChain Hone)
    as (_ & Herr & Hgg & _).
  split; [exact (Herr eq_refl)|exact Hgg].
Defined.

Lemma X3_witness :
  (∃ e, err (AppendBranch (Some twoCandidates) branchedChain) = Some e) ∧
  (∃ e, err (@AppendParallel strictRules (Some twoNodeParallel) branchedChain) = Some e).
Proof.
  assert (2 ≤ length (preNodeKeys branchedChain))%nat as Hmany by (vm_compute; lia).
  destruct (X3_branch_or_parallel_needs_single_predecessor
              (H := strictRules) (Some twoCandidates) (Some twoNodeParallel)
              branchedChain Hmany) as (Hb & _ & _ & Hp & _).
  split; [exact Hb|exact Hp].
Defined.

Lemma X4_witness :
  length (preNodeKeys (AppendBranch (Some twoCandidates) sampleChain)) = 2%nat ∧
  "Chain[1]_Branch[a]_A" ∈ preNodeKeys (AppendBranch (Some twoCandidates) sampleChain).
Proof.
  assert (err (AppendBranch (Some twoCandidates) sampleChain) = None) as Hok
    by (vm_compute; reflexivity).
  destruct (X4_branch_leaves_one_predecessor_per_candidate
              (H := strictRules) twoCandidates sampleChain Hok) as (Hlen & _ & Hkeys & _).
  split; [exact Hlen|].
  apply (Hkeys "a" (lambdaNode "A")). vm_compute. reflexivity.
Defined.

Lemma X5_witness :
  preNodeKeys (@addNode strictRules (Some (lambdaNode "M")) sampleChain) = ["Chain[1]_M"] ∧
  edges (gg (@addNode strictRules (Some (lambdaNode "M")) sampleChain))
  = [(START, "Chain[0]_L"); ("Chain[0]_L", "Chain[1]_M")].
Proof.
  assert (err (@addNode strictRules (Some (lambdaNode "M")) sampleChain) = None) as Hok
    by (vm_compute; reflexivity).
  destruct (X5_addNode_links_every_predecessor
              (H := strictRules) (lambdaNode "M") sampleChain Hok)
    as (Hpre & _ & _ & Hedges & _).
  split; [exact Hpre|exact Hedges].
Defined.

Lemma X6_witness :
  preNodeKeys (@AppendParallel strictRules (Some twoNodeParallel) sampleChain)
  = ["Chain[1]_Parallel[0]_P"; "Chain[1]_Parallel[1]_Q"] ∧
  edges (gg (@AppendParallel strictRules (Some twoNodeParallel) sampleChain))
  = [(START, "Chain[0]_L"); ("Chain[0]_L", "Chain[1]_Parallel[0]_P");
     ("Chain[0]_L", "Chain[1]_Parallel[1]_Q")].
Proof.
  assert (err (@AppendParallel strictRules (Some twoNodeParallel) sampleChain) = None) as Hok
    by (vm_compute; reflexivity).
  destruct (X6_parallel_fans_out_from_one_predecessor
              (H := strictRules) twoNodeParallel sampleChain Hok)
    as (startNode & Hstart & Hpre & _ & _ & Hedges & _).
  split; [exact Hpre|].
  rewrite Hedges, Hpre.
  injection Hstart as <-. reflexivity.
Defined.

Lemma X7_witness :
  ∃ plan,
    (@Compile strictRules [] sampleChain).2 = inl plan ∧
    plan_edges plan = [(START, "Chain[0]_L"); ("Chain[0]_L", END)].
Proof.
  eexists. split; [vm_compute; reflexivity|].
  refine (proj1 (proj2 (X7_compiled_chain_ends_at_its_last_nodes
                          (H := strictRules) [] sampleChain _ _ _)));
    vm_compute; reflexivity.
Defined.

(** X8.  The branch conditions of the agent graph only ever return node
    keys declared as end nodes of their branch: the condition after the model
    returns the tools node or END, the condition after the tools node returns
    the model node or the direct-return node. *)
Theorem X8_agent_branch_conditions_return_declared_candidates :
  (∀ (checker : react.toolCallChecker) sr k,
     (react.modelPostBranchCondition checker sr).1 = inl k →
     ({[ react.nodeKeyTools := true; END := true ]} : gmap string bool) !! k = Some true) ∧
  (∀ st sr k,
     (react.returnDirectlyCondition st sr).1 = inl k →
     ({[ react.nodeKeyModel := true; react.nodeKeyDirectReturn := true ]}
        : gmap string bool) !! k = Some true).
Proof.
  split.
  - intros checker sr k. unfold react.modelPostBranchCondition.
    destruct (checker sr) as [[[|] [e|]] sr']; simpl; try done.
    + by inversion 1.
    + by inversion 1.
  - intros st sr k. unfold react.returnDirectlyCondition, react.ProcessState.
    destruct st as [s|]; simpl; [|done].
    case_bool_decide; by inversion 1.
Qed.

Lemma getReturnDirectlyToolCallID_first (input : Message) (set : gset string) pre tc post :
  ToolCalls input = (pre ++ tc :: post)%list →
  Forall (λ x, Name (Function x) ∉ set) pre →
  Name (Function tc) ∈ set →
  react.getReturnDirectlyToolCallID input set = ID tc.
Proof.
  intros Hcalls Hpre Hin. unfold react.getReturnDirectlyToolCallID.
  rewrite bool_decide_eq_false_2.
  2:{ intros Hz%size_empty_inv%leibniz_equiv. set_solver. }
  rewrite Hcalls. clear Hcalls.
  induction Hpre as [|x pre Hx _ IH]; simpl.
  - by rewrite bool_decide_eq_true_2.
  - by rewrite bool_decide_eq_false_2.
Qed.

(** X9.  The state handler of the tools node passes its input through,
    appends it to the history and records the return-directly tool call; the
    branch after the tools node then goes back to the model exactly when the
    recorded ID is empty, and to the direct-return node otherwise.  With a
    first matching tool call the route depends on that call's ID alone. *)
Theorem X9_return_directly_routing
        (config : react.AgentConfig) (input : Message) (st : react.state)
        (sr : StreamReader (list Message)) :
  let st' := (react.toolsNodePreHandle config input st).2 in
  (react.toolsNodePreHandle config input st).1 = input ∧
  react.Messages st' = (react.Messages st ++ [input])%list ∧
  (react.returnDirectlyCondition (Some st') sr).1 =
    inl (if decide (react.getReturnDirectlyToolCallID input (react.ToolReturnDirectly config) = "")
         then react.nodeKeyModel else react.nodeKeyDirectReturn) ∧
  (∀ pre tc post,
     ToolCalls input = (pre ++ tc :: post)%list →
     Forall (λ x, Name (Function x) ∉ react.ToolReturnDirectly config) pre →
     Name (Function tc) ∈ react.ToolReturnDirectly config →
     (react.returnDirectlyCondition (Some st') sr).1 =
       inl (if decide (ID tc = "") then react.nodeKeyModel else react.nodeKeyDirectReturn)).
Proof.
  intros st'. subst st'.
  assert (∀ id : string,
            (react.returnDirectlyCondition
               (Some (react.mkState (react.Messages st ++ [input]) id)) sr).1
            = inl (if decide (id = "") then react.nodeKeyModel
                   else react.nodeKeyDirectReturn)) as Hroute.
  { intros id. unfold react.returnDirectlyCondition; simpl.
    destruct id as [|a id]; simpl; done. }
  split_and!; try done.
  - apply Hroute.
  - intros pre tc post Hcalls Hpre Hin.
    rewrite <- (getReturnDirectlyToolCallID_first input _ pre tc post Hcalls Hpre Hin).
    apply Hroute.
Qed.

Lemma findToolResult_first msgs id pre m post :
  msgs = (pre ++ Some m :: post)%list →
  Forall (λ o, ¬ answers id o) pre → ToolCallID m = id →
  react.findToolResult msgs id = Some m.
Proof.
  intros -> Hpre Hm. induction Hpre as [|o pre Ho _ IH]; simpl.
  - by rewrite bool_decide_eq_true_2.
  - destruct o as [x|]; [|done]. simpl in Ho. by rewrite bool_decide_eq_false_2.
Qed.

Lemma findToolResult_none msgs id :
  Forall (λ o, ¬ answers id o) msgs → react.findToolResult msgs id = None.
Proof.
  induction 1 as [|o rest Ho _ IH]; simpl; [done|].
  destruct o as [x|]; [|done]. simpl in Ho. by rewrite bool_decide_eq_false_2.
Qed.

Lemma findToolResult_some msgs id m :
  react.findToolResult msgs id = Some m → Some m ∈ msgs ∧ ToolCallID m = id.
Proof.
  induction msgs as [|o rest IH]; simpl; [done|].
  destruct o as [x|].
  - case_bool_decide as Hx.
    + inversion 1; subst. split; [by left|done].
    + intros [? ?]%IH. split; [by right|done].
  - intros [? ?]%IH. split; [by right|done].
Qed.

(** X10.  [directReturn] itself never fails: it returns the stream of tool
    results wrapped with a conversion that is applied to each chunk.  For a
    chunk the conversion returns the first non-nil message whose tool call ID
    is the recorded return-directly ID; it fails without a run state, and
    with [ErrNoValue] when no message of the chunk answers; whatever it
    returns is a message of the chunk and answers the recorded ID. *)
Theorem X10_direct_return_wraps_stream_with_first_answer_conversion
        (st : option react.state) (sr : StreamReader (list (option Message))) :
  ∃ r, react.directReturn st sr = inl r ∧
       react.cv_source r = sr ∧
       ∀ msgs : list (option Message),
         (st = None → ∃ e, react.cv_convert r msgs = inr e) ∧
         (∀ s pre m post,
            st = Some s → msgs = (pre ++ Some m :: post)%list →
            Forall (λ o, ¬ answers (react.ReturnDirectlyToolCallID s) o) pre →
            ToolCallID m = react.ReturnDirectlyToolCallID s →
            react.cv_convert r msgs = inl m) ∧
         (∀ s, st = Some s →
               Forall (λ o, ¬ answers (react.ReturnDirectlyToolCallID s) o) msgs →
               react.cv_convert r msgs = inr react.ErrNoValue) ∧
         (∀ m, react.cv_convert r msgs = inl m →
               Some m ∈ msgs ∧
               ∃ s, st = Some s ∧ ToolCallID m = react.ReturnDirectlyToolCallID s).
Proof.
  eexists. split; [reflexivity|]. split; [reflexivity|]. intros msgs. simpl.
  unfold react.directReturnConvert, react.ProcessState. split_and!.
  - intros ->. eauto.
  - intros s pre m post -> Hmsgs Hpre Hm.
    by rewrite (findToolResult_first msgs _ pre m post).
  - intros s -> Hnone. by rewrite findToolResult_none.
  - intros m. destruct st as [s|]; [|done].
    destruct (react.findToolResult msgs _) as [x|] eqn:Hfind; [|done].
    inversion 1; subst. apply findToolResult_some in Hfind as [? ?]. eauto.
Qed.

Lemma genToolInfosLoop_all {A} (infos acc : list A) :
  react.genToolInfosLoop (inl <$> infos) acc = inl (acc ++ infos)%list.
Proof.
  revert acc. induction infos as [|x rest IH]; intros acc; simpl.
  - by rewrite app_nil_r.
  - rewrite IH. by rewrite <- app_assoc.
Qed.

Lemma genToolInfosLoop_fail {A} (infos acc : list A) e rest :
  react.genToolInfosLoop ((inl <$> infos) ++ inr e :: rest)%list acc = inr e.
Proof. revert acc. induction infos as [|x l IH]; intros acc; simpl; [done|]. apply IH. Qed.

Lemma genToolInfosLoop_inv {A} (tools : list (result A)) : ∀ acc infos,
  react.genToolInfosLoop tools acc = inl infos →
  ∃ got, tools = inl <$> got ∧ infos = (acc ++ got)%list.
Proof.
  induction tools as [|[x|e] rest IH]; intros acc infos; simpl.
  - inversion 1; subst. exists []. by rewrite app_nil_r.
  - intros (got & -> & ->)%IH. exists (x :: got). by rewrite <- app_assoc.
  - done.
Qed.

(** X11.  [genToolInfos] returns the info of every tool, in order, when
    every [Info] call succeeds, and the error of the first failing call
    otherwise; a returned list has one entry per tool, and a returned error
    is the error of one of the tools. *)
Theorem X11_genToolInfos_all_or_first_error {A} (tools : list (result A)) :
  (∀ infos, tools = inl <$> infos → react.genToolInfos tools = inl infos) ∧
  (∀ infos e rest, tools = ((inl <$> infos) ++ inr e :: rest)%list →
                   react.genToolInfos tools = inr e) ∧
  (∀ infos, react.genToolInfos tools = inl infos →
            tools = inl <$> infos ∧ length infos = length tools) ∧
  (∀ e, react.genToolInfos tools = inr e → inr e ∈ tools).
Proof.
  unfold react.genToolInfos. split_and!.
  - intros infos ->. by rewrite genToolInfosLoop_all.
  - intros infos e rest ->. apply genToolInfosLoop_fail.
  - intros infos (got & -> & ->)%genToolInfosLoop_inv. simpl. by rewrite length_fmap.
  - intros e. generalize (@nil A). induction tools as [|[x|e'] rest IH]; intros acc; simpl.
    + done.
    + intros ?%IH. by right.
    + inversion 1; subst. by left.
Qed.

Section AgentMore.
Context `{GraphRules}.

(** X12.  An agent that [NewAgent] returns has a compiled graph with the
    nodes chat and tools (and direct_return when return-directly tools are
    configured), the edge from START to chat, then either the edge back from
    tools to chat or the edge from direct_return to END, a branch after chat
    (and one after tools in the return-directly case), each with two end
    nodes; the plan holds the same nodes and edges. *)
Theorem X12_agent_graph_structure
        (collab : option error) (st : option react.state) (config : react.AgentConfig)
        (agent : react.Agent) :
  react.NewAgent collab st config = inl agent →
  let g := react.graph agent in
  let direct := bool_decide (0 < size (react.ToolReturnDirectly config))%nat in
  collab = None ∧
  compiled g = true ∧
  dom (nodes g) =
    (if direct
     then {[ react.nodeKeyModel; react.nodeKeyTools; react.nodeKeyDirectReturn ]}
     else {[ react.nodeKeyModel; react.nodeKeyTools ]} : gset string) ∧
  edges g =
    (START, react.nodeKeyModel)
      :: (if direct then [(react.nodeKeyDirectReturn, END)]
          else [(react.nodeKeyTools, react.nodeKeyModel)]) ∧
  (branches g).*1 =
    react.nodeKeyModel :: (if direct then [react.nodeKeyTools] else []) ∧
  Forall (λ br, size (endNodes br) = 2%nat) (branches g).*2 ∧
  plan_nodes (react.runnable agent) = nodes g ∧
  plan_edges (react.runnable agent) = edges g.
Proof.
  unfold react.NewAgent. destruct collab; [done|].
  destruct (react.andThen _ _) as [g [e|]] eqn:Hbuilt; [done|].
  apply andThen_ok in Hbuilt as (g1 & (? & -> & _)%graph_addNode_ok & Hbuilt).
  apply andThen_ok in Hbuilt as (g2 & ->%graph_AddEdge_ok & Hbuilt).
  apply andThen_ok in Hbuilt as (g3 & (? & -> & _)%graph_addNode_ok & Hbuilt).
  apply andThen_ok in Hbuilt as (g4 & ->%graph_AddBranch_ok & Hbuilt).
  unfold graph_Compile.
  destruct (graph_compile _ g) as [g' [plan|e]] eqn:Hc; [|done].
  intros Hagent. inversion Hagent; subst; clear Hagent. simpl.
  apply graph_compile_ok in Hc as (_ & _ & _ & -> & ->). simpl.
  case_bool_decide as Hdirect.
  - unfold react.buildReturnDirectly in Hbuilt.
    apply andThen_ok in Hbuilt as (g5 & (? & -> & _)%graph_addNode_ok & Hbuilt).
    apply andThen_ok in Hbuilt as (g6 & ->%graph_AddBranch_ok & ->%graph_AddEdge_ok).
    simpl. split_and!; try done; repeat constructor.
  - apply graph_AddEdge_ok in Hbuilt as ->. simpl.
    split_and!; try done; repeat constructor.
Qed.

End AgentMore.

Lemma X12_witness :
  ∃ agent,
    @react.NewAgent strictRules None None plainConfig = inl agent ∧
    edges (react.graph agent)
    = [(START, react.nodeKeyModel); (react.nodeKeyTools, react.nodeKeyModel)] ∧
    (branches (react.graph agent)).*1 = [react.nodeKeyModel].
Proof.
  eexists. split; [vm_compute; reflexivity|].
  destruct (X12_agent_graph_structure (H := strictRules) None None plainConfig _
              ltac:(vm_compute; reflexivity)) as (_ & _ & _ & Hedges & Hbranches & _).
  split; [exact Hedges|exact Hbranches].
Defined.

Lemma length_zero_iff (s : string) : String.length s = 0%nat ↔ s = "".
Proof. destruct s; simpl; split; intros; try done. Qed.

(** X13.  [AgentMeta.validate] accepts exactly the metas with a name and an
    intended use; the name is checked first. *)
Theorem X13_agent_meta_needs_name_and_intended_use (am : host.AgentMeta) :
  (host.AgentMeta_validate am = None ↔ host.Name am ≠ "" ∧ host.IntendedUse am ≠ "") ∧
  (host.Name am = "" →
   host.AgentMeta_validate am = Some (Errorf "agent meta name is empty")) ∧
  (host.Name am ≠ "" → host.IntendedUse am = "" →
   host.AgentMeta_validate am = Some (Errorf "agent meta intended use is empty")).
Proof.
  unfold host.AgentMeta_validate.
  repeat case_bool_decide; rewrite ?length_zero_iff in *; split_and!; try done;
    try (split; [done|intros [? ?]; done]); intros; done.
Qed.

Lemma AgentMeta_validate_None am :
  host.AgentMeta_validate am = None ↔ host.Name am ≠ "" ∧ host.IntendedUse am ≠ "".
Proof.
  unfold host.AgentMeta_validate.
  repeat case_bool_decide; rewrite ?length_zero_iff in *;
    (split; [try done|intros [? ?]; done]).
Qed.

Lemma specialistOk_Some s :
  specialistOk (Some s) ↔
  ¬ (host.sp_ChatModel s = None ∧ host.Invokable s = None ∧ host.Streamable s = None) ∧
  host.AgentMeta_validate (host.meta s) = None.
Proof.
  simpl. rewrite AgentMeta_validate_None. split.
  - intros (Hrun & ? & ?). split; [|done]. intros (? & ? & ?).
    destruct Hrun as [?|[?|?]]; done.
  - intros (Hrun & ? & ?). split; [|done].
    destruct (host.sp_ChatModel s) eqn:?, (host.Invokable s) eqn:?, (host.Streamable s) eqn:?;
      try (by left); try (by right; left); try (by right; right).
    exfalso. by apply Hrun.
Qed.

Lemma validateSpecialists_ok ss :
  host.validateSpecialists ss = host.Returns None ↔ Forall specialistOk ss.
Proof.
  induction ss as [|[s|] rest IH]; simpl.
  - by split.
  - rewrite Forall_cons, specialistOk_Some.
    case_bool_decide as Hexec.
    { split; [done|]. intros [[? _] _]. done. }
    destruct (host.AgentMeta_validate (host.meta s)) eqn:Hmeta.
    { split; [done|]. intros [[_ ?] _]. done. }
    rewrite IH. split; [intros ?; by split_and!|intros [_ ?]; done].
  - split; [done|]. by intros [Hnil _]%Forall_cons.
Qed.

Lemma validateSpecialists_panics ss :
  host.validateSpecialists ss = host.Panics ↔
  ∃ pre post, ss = (pre ++ None :: post)%list ∧ Forall specialistOk pre.
Proof.
  induction ss as [|[s|] rest IH]; simpl.
  - split; [done|]. intros ([|? ?] & post & ? & _); done.
  - case_bool_decide as Hexec.
    { split; [done|]. intros ([|o pre] & post & [= ] & Hpre); subst.
      apply Forall_cons in Hpre as [[? _]%specialistOk_Some _]. done. }
    destruct (host.AgentMeta_validate (host.meta s)) eqn:Hmeta.
    { split; [done|]. intros ([|o pre] & post & [= ] & Hpre); subst.
      apply Forall_cons in Hpre as [[_ ?]%specialistOk_Some _]. congruence. }
    rewrite IH. split.
    + intros (pre & post & -> & Hpre). exists (Some s :: pre), post. split; [done|].
      apply Forall_cons. split; [|done]. by apply specialistOk_Some.
    + intros ([|o pre] & post & [= ] & Hpre); subst.
      apply Forall_cons in Hpre as [_ Hpre]. eauto.
  - split; [|done]. intros _. exists [], rest. by split.
Qed.

Lemma validate_specialists_run defaultHostPrompt cf :
  host.ChatModel (host.conf_Host cf) ≠ None → host.Specialists cf ≠ [] →
  (host.validate defaultHostPrompt (Some cf)).2
  = host.validateSpecialists (host.Specialists cf).
Proof.
  intros Hmodel Hne. unfold host.validate.
  rewrite bool_decide_eq_false_2 by done.
  rewrite bool_decide_eq_false_2 by (by destruct (host.Specialists cf)).
  assert (host.Specialists
            (if bool_decide (String.length (host.SystemPrompt (host.conf_Host cf)) = 0%nat)
             then host.mkMultiAgentConfig
                    (host.mkHost (host.ChatModel (host.conf_Host cf)) defaultHostPrompt)
                    (host.Specialists cf) (host.conf_Name cf)
             else cf) = host.Specialists cf) as -> by (by case_bool_decide).
  by destruct (host.validateSpecialists (host.Specialists cf)) as [[e|]|].
Qed.

(** X14.  [MultiAgentConfig.validate] returns nil exactly for a non-nil
    configuration with a host chat model and a non-empty list of specialists
    each of which is non-nil, has a chat model, an Invokable or a Streamable,
    a name and an intended use; it panics exactly when, with a host chat
    model set, a nil specialist comes before any specialist that fails the
    checks. *)
Theorem X14_validate_accepts_exactly_complete_configs
        (defaultHostPrompt : string) (conf : option host.MultiAgentConfig) :
  ((host.validate defaultHostPrompt conf).2 = host.Returns None ↔
   ∃ cf, conf = Some cf ∧
         host.ChatModel (host.conf_Host cf) ≠ None ∧
         host.Specialists cf ≠ [] ∧
         Forall specialistOk (host.Specialists cf)) ∧
  ((host.validate defaultHostPrompt conf).2 = host.Panics ↔
   ∃ cf pre post, conf = Some cf ∧
         host.ChatModel (host.conf_Host cf) ≠ None ∧
         host.Specialists cf = (pre ++ None :: post)%list ∧
         Forall specialistOk pre).
Proof.
  destruct conf as [cf|].
  2:{ split; (split; [done|]); [intros (? & ? & _)|intros (? & ? & ? & ? & _)]; done. }
  destruct (decide (host.ChatModel (host.conf_Host cf) = None)) as [Hmodel|Hmodel].
  { unfold host.validate. rewrite bool_decide_eq_true_2 by done. simpl.
    split; (split; [done|]);
      [intros (? & [= <-] & ? & _)|intros (? & ? & ? & [= <-] & ? & _)]; done. }
  destruct (decide (host.Specialists cf = [])) as [Hnone|Hnone].
  { unfold host.validate. rewrite bool_decide_eq_false_2 by done.
    rewrite bool_decide_eq_true_2 by (by rewrite Hnone). simpl.
    split; (split; [done|]);
      [intros (? & [= <-] & _ & ? & _)
      |intros (? & pre & ? & [= <-] & _ & Heq & _); rewrite Heq in Hnone; destruct pre]; done. }
  rewrite validate_specialists_run by done. split.
  - rewrite validateSpecialists_ok. split; [by eauto|].
    by intros (? & [= <-] & _ & _ & ?).
  - rewrite validateSpecialists_panics. split.
    + intros (pre & post & ? & ?). by exists cf, pre, post.
    + intros (? & pre & post & [= <-] & _ & ? & ?). eauto.
Qed.

#[local] Arguments host.validateSpecialists : simpl never.

(** X15.  [MultiAgentConfig.validate] changes at most the host's system
    prompt and the name, and only when they are empty; on success both are
    set (to the default where they were empty), and validating the resulting
    configuration again succeeds and changes nothing. *)
Theorem X15_validate_fills_defaults_once
        (defaultHostPrompt : string) (cf : host.MultiAgentConfig) :
  let r := host.validate defaultHostPrompt (Some cf) in
  (∃ cf', r.1 = Some cf' ∧
          host.Specialists cf' = host.Specialists cf ∧
          host.ChatModel (host.conf_Host cf') = host.ChatModel (host.conf_Host cf) ∧
          (host.SystemPrompt (host.conf_Host cf) ≠ "" →
           host.SystemPrompt (host.conf_Host cf') = host.SystemPrompt (host.conf_Host cf)) ∧
          (host.conf_Name cf ≠ "" → host.conf_Name cf' = host.conf_Name cf) ∧
          (r.2 = host.Returns None →
           host.SystemPrompt (host.conf_Host cf') =
             (if decide (host.SystemPrompt (host.conf_Host cf) = "")
              then defaultHostPrompt else host.SystemPrompt (host.conf_Host cf)) ∧
           host.conf_Name cf' =
             (if decide (host.conf_Name cf = "")
              then "host multi agent" else host.conf_Name cf))) ∧
  (r.2 = host.Returns None → host.validate defaultHostPrompt r.1 = (r.1, host.Returns None)).
Proof.
  intros r. subst r. destruct cf as [[cm sp] ss nm].
  unfold host.validate; simpl.
  destruct cm as [m|]; [|simpl; split; [eexists; by split_and!|done]].
  destruct ss as [|s ss]; [simpl; split; [eexists; by split_and!|done]|].
  rewrite (bool_decide_eq_false_2 (Some m = None)); [|done].
  rewrite (bool_decide_eq_false_2 (length (s :: ss) = 0%nat)); [|done].
  assert (∀ (b : bool) (x y : host.MultiAgentConfig),
            host.Specialists x = s :: ss → host.Specialists y = s :: ss →
            host.Specialists (if b then x else y) = s :: ss) as Hif
    by (by intros []).
  rewrite Hif; [|done|done].
  destruct (host.validateSpecialists (s :: ss)) as [[e|]|] eqn:Hv.
  { simpl. split; [|done]. destruct sp; simpl; eexists; by split_and!. }
  2:{ simpl. split; [|done]. destruct sp; simpl; eexists; by split_and!. }
  destruct sp as [|a sp], nm as [|b nm]; simpl; (split; [eexists; by split_and!|]); intros _;
    rewrite ?(bool_decide_eq_false_2 (Some m = None)) by done; simpl; rewrite ?Hv;
    repeat case_bool_decide; simpl; rewrite ?Hv; done.
Qed.






Lemma noClosingBracket_app s1 s2 :
  noClosingBracket (s1 +:+ s2) = noClosingBracket s1 && noClosingBracket s2.
Proof.
  induction s1 as [|a s1 IH]; [done|].
  change (noClosingBracket (String a s1 +:+ s2))
    with (negb (Ascii.eqb a "]"%char) && noClosingBracket (s1 +:+ s2)).
  rewrite IH. simpl. by rewrite andb_assoc.
Qed.

Lemma append_assoc (s1 s2 s3 : string) : (s1 +:+ s2) +:+ s3 = s1 +:+ (s2 +:+ s3).
Proof.
  induction s1 as [|a s1 IH]; [done|].
  change (String a ((s1 +:+ s2) +:+ s3) = String a (s1 +:+ (s2 +:+ s3))).
  by rewrite IH.
Qed.

Lemma pretty_N_go_digits (x : N) : ∀ s,
  ∃ d, pretty_N_go x s = d +:+ s ∧ noClosingBracket d = true.
Proof.
  induction (N.lt_wf_0 x) as [x _ IH]; intros s.
  assert (x = 0 ∨ 0 < x)%N as [->|Hpos] by lia.
  - exists "". by rewrite pretty_N_go_0.
  - rewrite pretty_N_go_step by done.
    destruct (IH (x `div` 10)%N (N.div_lt x 10 Hpos eq_refl)
                 (String (pretty_N_char (x `mod` 10)) s)) as (d & -> & Hd).
    exists (d +:+ String (pretty_N_char (x `mod` 10)) ""). split.
    + by rewrite append_assoc.
    + rewrite noClosingBracket_app, Hd. simpl.
      unfold pretty_N_char. by repeat case_match.
Qed.

Lemma pretty_Z_no_closing_bracket (z : Z) : noClosingBracket (pretty z) = true.
Proof.
  assert (∀ x : N, noClosingBracket (pretty x) = true) as HN.
  { intros x. unfold pretty, pretty_N. case_decide; [done|].
    destruct (pretty_N_go_digits x "") as (d & -> & Hd).
    by rewrite noClosingBracket_app, Hd. }
  destruct z as [|p|p]; [done|apply (HN (Npos p))|].
  unfold pretty, pretty_Z. simpl. apply (HN (Npos p)).
Qed.

Lemma append_cancel_l (p a b : string) : p +:+ a = p +:+ b → a = b.
Proof. induction p as [|c p IH]; simpl; [done|]. intros [= ?]. by apply IH. Qed.

Lemma split_at_closing_bracket d1 : ∀ d2 r1 r2,
  noClosingBracket d1 = true → noClosingBracket d2 = true →
  d1 +:+ String "]"%char r1 = d2 +:+ String "]"%char r2 → d1 = d2 ∧ r1 = r2.
Proof.
  induction d1 as [|a d1 IH]; intros [|b d2] r1 r2 H1 H2; simpl in *.
  - by intros [= ->].
  - intros [= <- _]. done.
  - intros [= -> _]. done.
  - intros [= -> Hrest].
    apply andb_true_iff in H1 as [_ H1]. apply andb_true_iff in H2 as [_ H2].
    destruct (IH d2 r1 r2 H1 H2 Hrest) as [-> ->]. done.
Qed.

Lemma wrap64_succ_ne (z : Z) : wrap64 (z + 1) ≠ z.
Proof.
  unfold wrap64. intros Heq.
  pose proof (Z.div_mod (z + 1 + 2 ^ 63) (2 ^ 64) ltac:(done)) as Hdm.
  change (2 ^ 64)%Z with 18446744073709551616%Z in *.
  change (2 ^ 63)%Z with 9223372036854775808%Z in *.
  lia.
Qed.

Lemma nextNodeKey_key name c :
  (nextNodeKey name c).1
  = effectivePrefix c +:+ "[" +:+ pretty (nodeIdx c) +:+ "]_" +:+ name.
Proof. unfold nextNodeKey, effectivePrefix; simpl. by case_decide. Qed.

(** X18.  Keys generated by [nextNodeKey] with the same prefix and different
    node indexes differ whatever the node names are; in particular two
    successive calls never generate the same key.  A call fixes the prefix
    ("Chain" when none was set) and advances the index by one. *)
Theorem X18_generated_node_keys_do_not_collide :
  (∀ name1 name2 (c1 c2 : Chain),
     effectivePrefix c1 = effectivePrefix c2 →
     nodeIdx c1 ≠ nodeIdx c2 →
     (nextNodeKey name1 c1).1 ≠ (nextNodeKey name2 c2).1) ∧
  (∀ name1 name2 (c : Chain),
     (nextNodeKey name1 c).1 ≠ (nextNodeKey name2 (nextNodeKey name1 c).2).1) ∧
  (∀ name (c : Chain),
     namePrefix (nextNodeKey name c).2 = effectivePrefix c ∧
     effectivePrefix (nextNodeKey name c).2 = effectivePrefix c ∧
     nodeIdx (nextNodeKey name c).2 = wrap64 (nodeIdx c + 1)).
Proof.
  assert (∀ name1 name2 (c1 c2 : Chain),
     effectivePrefix c1 = effectivePrefix c2 →
     nodeIdx c1 ≠ nodeIdx c2 →
     (nextNodeKey name1 c1).1 ≠ (nextNodeKey name2 c2).1) as Hgen.
  { intros name1 name2 c1 c2 Hprefix Hidx.
    rewrite !nextNodeKey_key, Hprefix. intros Hkeys.
    apply append_cancel_l in Hkeys.
    change ("[" +:+ ?x) with (String "["%char x) in Hkeys.
    injection Hkeys as Hkeys.
    change ("]_" +:+ ?x) with (String "]"%char (String "_"%char x)) in Hkeys.
    apply split_at_closing_bracket in Hkeys as [Hpretty _];
      [|apply pretty_Z_no_closing_bracket..].
    apply Hidx. by apply (inj pretty). }
  assert (∀ name (c : Chain),
     namePrefix (nextNodeKey name c).2 = effectivePrefix c ∧
     effectivePrefix (nextNodeKey name c).2 = effectivePrefix c ∧
     nodeIdx (nextNodeKey name c).2 = wrap64 (nodeIdx c + 1)) as Hnext.
  { intros name c. unfold nextNodeKey, effectivePrefix; simpl.
    repeat case_decide; simpl in *; split_and!; done. }
  split_and!; [exact Hgen| |exact Hnext].
  intros name1 name2 c. destruct (Hnext name1 c) as (_ & Hp & Hi).
  apply Hgen; [done|]. rewrite Hi. intros Heq. by apply (wrap64_succ_ne (nodeIdx c)).
Qed.

Lemma runPreHandles_messages config ks : ∀ st,
  react.Messages (runPreHandles config ks st)
  = (react.Messages st ++ concat (callMessages <$> ks))%list.
Proof.
  induction ks as [|k ks IH]; intros st; simpl.
  - by rewrite app_nil_r.
  - unfold runPreHandles in *. simpl. rewrite IH. rewrite (assoc_L (++)). f_equal.
    destruct k; simpl; [|done].
    unfold react.modelPreHandle. by destruct (react.MessageModifier config).
Qed.

(** X19.  Over any sequence of state handler calls of a run the history only
    grows: it is the initial history followed by every handler input in call
    order.  With the persona modifier the model is sent the system message of
    the persona followed by the whole history, and the persona message is
    never stored in the history; without a modifier it is sent the history
    itself. *)
Theorem X19_history_is_append_only (config : react.AgentConfig) (ks : list PreHandleCall)
        (st : react.state) (input : list Message) :
  let st' := runPreHandles config ks st in
  let history := (react.Messages st ++ concat (callMessages <$> ks))%list in
  react.Messages st' = history ∧
  react.Messages (react.modelPreHandle config input st').2 = (history ++ input)%list ∧
  (react.MessageModifier config = None →
   (react.modelPreHandle config input st').1 = (history ++ input)%list) ∧
  (∀ persona, react.MessageModifier config = Some (react.NewPersonaModifier persona) →
     (react.modelPreHandle config input st').1
     = mkMessage "system" persona [] "" :: (history ++ input)%list).
Proof.
  intros st' history. subst st' history.
  pose proof (runPreHandles_messages config ks st) as Hm.
  unfold react.modelPreHandle. split_and!.
  - done.
  - destruct (react.MessageModifier config); simpl; by rewrite Hm.
  - intros ->. simpl. by rewrite Hm.
  - intros persona ->. simpl. by rewrite Hm.
Qed.
